(** * ycmd: the test orchestrator (run_tests.py) and the stoppable WSGI server
    (ycmd/wsgi_server.py)

    A shallow embedding of the completer registry, of the completer
    selection, of the build and test argument vectors and of the server's
    run/shutdown wrapper, with the properties the specification states
    about them.

    Conventions of the embedding:
    - a Python [str] is a [string]; [str.lower] is taken on the ASCII
      letters, the only letters in the names and aliases of the registry;
    - a Python [dict] whose iteration order matters is an association list
      with unique keys, kept in insertion order; a [dict] that is only
      looked up is a [gmap]; a Python [set] is a [gset];
    - a Python exception is a constructor of [exn], and a computation that
      may raise returns a [result];
    - [os.environ], the module-level list [BASE_PYTEST_ARGS] and standard
      output are passed explicitly;
    - the calls on the file system, the network and the child processes
      are the methods of a class [System]; the functions that make them
      run in a state-and-failure monad over a record of the process,
      which keeps the calls in the order they were made. *)

From stdpp Require Import gmap strings list fin_maps pretty.
From Stdlib Require Import ZArith.

Open Scope string_scope.
Open Scope list_scope.

(** ** Python values and primitives *)

Module Py.

(** The exceptions that the two modules can raise or see. [OSError cls] is
    an instance of [OSError], of the class [cls]: [OSError] itself, which
    is what [select.error] names in Python 3, or one of its subclasses.
    [OtherError name] is an exception of a class [name] that is none of
    the others and no subclass of [OSError]. *)
Inductive exn : Type :=
  | KeyError (key : string)
  | TypeError (msg : string)
  | ArgumentTypeError (msg : string)
  | OSError (cls : string)
  | OtherError (name : string).

Inductive result (A : Type) : Type :=
  | Return (a : A)
  | Raise (e : exn).
Arguments Return {A} a.
Arguments Raise {A} e.

Definition bind {A B : Type} (m : result A) (k : A -> result B) : result B :=
  match m with
  | Return a => k a
  | Raise e => Raise e
  end.

#[global] Instance result_ret : MRet result := @Return.
#[global] Instance result_bind : MBind result :=
  fun A B k m => bind m k.

Definition raises {A : Type} (m : result A) : Prop :=
  match m with
  | Return _ => False
  | Raise _ => True
  end.

(** A [str] of ASCII characters only. On such a [str] the functions
    below are [str.lower] and [repr]; a character outside ASCII is left
    as it is by both. *)
Fixpoint is_ascii (s : string) : bool :=
  match s with
  | EmptyString => true
  | String c rest => (Ascii.nat_of_ascii c <? 128)%nat && is_ascii rest
  end.

(** [str.lower] on one character and on a string. *)
Definition lower_ascii (c : Ascii.ascii) : Ascii.ascii :=
  let n := Ascii.nat_of_ascii c in
  if (65 <=? n)%nat && (n <=? 90)%nat then Ascii.ascii_of_nat (n + 32) else c.

Fixpoint lower (s : string) : string :=
  match s with
  | EmptyString => EmptyString
  | String c rest => String (lower_ascii c) (lower rest)
  end.

(** [c in s] for a character. *)
Fixpoint str_contains (c : Ascii.ascii) (s : string) : bool :=
  match s with
  | EmptyString => false
  | String c' rest => Ascii.eqb c' c || str_contains c rest
  end.

Definition single_quote : Ascii.ascii := Ascii.ascii_of_nat 39.
Definition double_quote : Ascii.ascii := Ascii.ascii_of_nat 34.
Definition backslash : Ascii.ascii := Ascii.ascii_of_nat 92.

Definition hex_digit (n : nat) : Ascii.ascii :=
  match String.get n "0123456789abcdef" with
  | Some d => d
  | None => Ascii.zero
  end.

(** One character inside [repr] of a [str] quoted with [quote]: the quote
    and the backslash are escaped, tab, newline and carriage return have
    their letters, the other control characters are written [\xhh]. *)
Definition repr_char (quote c : Ascii.ascii) : string :=
  let n := Ascii.nat_of_ascii c in
  if Ascii.eqb c quote || Ascii.eqb c backslash
  then String backslash (String c EmptyString)
  else if (n =? 9)%nat then String backslash "t"
  else if (n =? 10)%nat then String backslash "n"
  else if (n =? 13)%nat then String backslash "r"
  else if (n <? 32)%nat || (n =? 127)%nat
  then String backslash "x" +:+
       String (hex_digit (n / 16)) (String (hex_digit (n mod 16)) EmptyString)
  else String c EmptyString.

Fixpoint repr_chars (quote : Ascii.ascii) (s : string) : string :=
  match s with
  | EmptyString => EmptyString
  | String c rest => repr_char quote c +:+ repr_chars quote rest
  end.

(** [repr] of a [str]: in single quotes, unless it has a single quote and
    no double quote; and of the keys of a dict. *)
Definition repr_str (s : string) : string :=
  let quote :=
    if str_contains single_quote s && negb (str_contains double_quote s)
    then double_quote else single_quote in
  String quote (repr_chars quote s) +:+ String quote EmptyString.

Fixpoint join (sep : string) (l : list string) : string :=
  match l with
  | [] => EmptyString
  | [x] => x
  | x :: rest => x +:+ sep +:+ join sep rest
  end.

Definition repr_dict_keys (keys : list string) : string :=
  "dict_keys([" +:+ join ", " (map repr_str keys) +:+ "])".

(** [str( n )] for an [int]. *)
Definition str_of_int (n : Z) : string := pretty n.

(** *** Insertion-ordered dictionaries *)

Section Dict.
Context {V : Type}.

Definition dict : Type := list (string * V).

Fixpoint get (k : string) (d : dict) : option V :=
  match d with
  | [] => None
  | (k', v) :: rest => if String.eqb k k' then Some v else get k rest
  end.

(** [k in d] *)
Definition mem (k : string) (d : dict) : bool :=
  match get k d with
  | Some _ => true
  | None => false
  end.

Definition keys (d : dict) : list string := map fst d.

(** [d[ k ] = v]: an existing key keeps its place, a new one goes last. *)
Fixpoint set (k : string) (v : V) (d : dict) : dict :=
  match d with
  | [] => [(k, v)]
  | (k', v') :: rest =>
      if String.eqb k k' then (k', v) :: rest else (k', v') :: set k v rest
  end.

End Dict.
Arguments dict V : clear implicits.

(** [key in xs] where [xs] is a list or [None]. *)
Definition contains (key : string) (xs : option (list string)) : result bool :=
  match xs with
  | Some l => Return (bool_decide (key ∈ l))
  | None => Raise (TypeError "argument of type 'NoneType' is not iterable")
  end.

End Py.

Import Py.

(** ** run_tests.py *)

Module RunTests.

(** *** The registry *)

(** One value of [COMPLETERS]: a dict with the keys ['build'] and ['test']
    and, for some entries only, ['aliases']. [None] stands for the absent
    key. *)
Record completer_spec : Type := {
  build : list string;
  test : list string;
  aliases : option (list string)
}.

(** [v[ 'aliases' ]] *)
Definition getitem_aliases (v : completer_spec) : result (list string) :=
  match aliases v with
  | Some l => Return l
  | None => Raise (KeyError "aliases")
  end.

Definition SIMPLE_COMPLETERS : list string := [ "clangd"; "rust"; "go" ].

(** The literal that [COMPLETERS] is bound to, before the simple completers
    are added. *)
Definition EXPLICIT_COMPLETERS : dict completer_spec := [
  ("cfamily", {| build := [ "--clang-completer" ];
                 test := [ "--ignore=ycmd/tests/clang" ];
                 aliases := Some [ "c"; "cpp"; "c++"; "objc"; "clang" ] |});
  ("cs", {| build := [ "--cs-completer" ];
            test := [ "--ignore=ycmd/tests/cs" ];
            aliases := Some [ "omnisharp"; "csharp"; "c#" ] |});
  ("javascript", {| build := [ "--js-completer" ];
                    test := [ "--ignore=ycmd/tests/tern" ];
                    aliases := Some [ "js"; "tern" ] |});
  ("typescript", {| build := [ "--ts-completer" ];
                    test := [ "--ignore=ycmd/tests/javascript";
                              "--ignore=ycmd/tests/typescript" ];
                    aliases := Some [ "ts" ] |});
  ("python", {| build := [];
                test := [ "--ignore=ycmd/tests/python" ];
                aliases := Some [ "jedi"; "jedihttp" ] |});
  ("java", {| build := [ "--java-completer" ];
              test := [ "--ignore=ycmd/tests/java" ];
              aliases := Some [ "jdt" ] |})
].

(** The value the loop assigns for one simple completer. *)
Definition simple_spec (completer : string) : completer_spec :=
  {| build := [ "--" +:+ completer +:+ "-completer" ];
     test := [ "--ignore=ycmd/tests/" +:+ completer ];
     aliases := None |}.

(** [for completer in SIMPLE_COMPLETERS: COMPLETERS[ completer ] = ...] *)
Fixpoint add_simple_completers (simple : list string)
    (d : dict completer_spec) : dict completer_spec :=
  match simple with
  | [] => d
  | completer :: rest =>
      add_simple_completers rest (Py.set completer (simple_spec completer) d)
  end.

(** The module's top-level construction of the registry, from any list of
    simple completers and any explicit literal. It has no statement that
    checks the names or that raises. *)
Definition build_registry (simple : list string)
    (explicit : dict completer_spec) : result (dict completer_spec) :=
  Return (add_simple_completers simple explicit).

Definition COMPLETERS : dict completer_spec :=
  Eval vm_compute in
    add_simple_completers SIMPLE_COMPLETERS EXPLICIT_COMPLETERS.

(** The native-language completer that the legacy flag and the environment
    override act on. *)
Definition cfamily : string := "cfamily".

(** *** CompleterType *)

Section Lookup.
Variable registry : dict completer_spec.

(** [{ i: k for k, v in registry.items() for i in v[ 'aliases' ] }] *)
Fixpoint aliases_to_completer_from (items : dict completer_spec)
    (acc : gmap string string) : result (gmap string string) :=
  match items with
  | [] => Return acc
  | (k, v) :: rest =>
      als ← getitem_aliases v;
      aliases_to_completer_from rest
        (foldl (fun m i => <[ i := k ]> m) acc als)
  end.

Definition aliases_to_completer : result (gmap string string) :=
  aliases_to_completer_from registry ∅.

Definition invalid_completer_message (value : string) : string :=
  value +:+ " is not a valid completer - should be one of " +:+
  repr_dict_keys (keys registry).

Definition CompleterType (value : string) : result string :=
  let value := lower value in
  if mem value registry then Return value
  else
    a2c ← aliases_to_completer;
    match a2c !! value with
    | Some k => Return k
    | None => Raise (ArgumentTypeError (invalid_completer_message value))
    end.

End Lookup.

(** *** Parsed arguments and the process state *)

(** The namespace that [parse_known_args] returns. The three selection
    options are one mutually exclusive group of the parser. *)
Record Namespace : Type := {
  no_clang_completer : bool;
  no_completers : option (list string);
  completers : option (list string);
  skip_build : bool;
  msvc : Z;
  coverage : bool;
  no_flake8 : bool;
  dump_path : bool;
  no_retry : bool;
  quiet : bool;
  valgrind : bool
}.

Definition with_completers (l : option (list string)) (a : Namespace) :
    Namespace :=
  {| no_clang_completer := no_clang_completer a;
     no_completers := no_completers a;
     completers := l;
     skip_build := skip_build a;
     msvc := msvc a;
     coverage := coverage a;
     no_flake8 := no_flake8 a;
     dump_path := dump_path a;
     no_retry := no_retry a;
     quiet := quiet a;
     valgrind := valgrind a |}.

Definition with_coverage (b : bool) (a : Namespace) : Namespace :=
  {| no_clang_completer := no_clang_completer a;
     no_completers := no_completers a;
     completers := completers a;
     skip_build := skip_build a;
     msvc := msvc a;
     coverage := b;
     no_flake8 := no_flake8 a;
     dump_path := dump_path a;
     no_retry := no_retry a;
     quiet := quiet a;
     valgrind := valgrind a |}.

Definition with_no_completers (l : option (list string)) (a : Namespace) :
    Namespace :=
  {| no_clang_completer := no_clang_completer a;
     no_completers := l;
     completers := completers a;
     skip_build := skip_build a;
     msvc := msvc a;
     coverage := coverage a;
     no_flake8 := no_flake8 a;
     dump_path := dump_path a;
     no_retry := no_retry a;
     quiet := quiet a;
     valgrind := valgrind a |}.


(** What the parser gives when no option is passed. *)
Definition default_args : Namespace :=
  {| no_clang_completer := false;
     no_completers := None;
     completers := None;
     skip_build := false;
     msvc := 16;
     coverage := false;
     no_flake8 := false;
     dump_path := false;
     no_retry := false;
     quiet := false;
     valgrind := false |}.


(** [os.environ] *)
Abbreviation environment := (gmap string string).

(** A [subprocess.check_call]: the argument vector and the environment the
    child gets ([os.environ] when no [env] is passed). *)
Record process_call : Type := {
  argv : list string;
  env : environment
}.

(** *** FixupCompleters *)

(** The double quote character. *)
Definition dquote : string := String (Ascii.ascii_of_nat 34) EmptyString.

Definition deprecation_warning : string :=
  "WARNING: The " +:+ dquote +:+ "--no-clang-completer" +:+ dquote +:+
  " flag is deprecated. Please use " +:+ dquote +:+
  "--no-completers cfamily" +:+ dquote +:+ " instead.".

(** Lines 176 to 184: the selection from the command line, with what is
    printed. *)
Definition cli_completers (registry : dict completer_spec)
    (parsed_args : Namespace) : list string * gset string :=
  let completers_ : gset string := list_to_set (keys registry) in
  match completers parsed_args with
  | Some included => ([], list_to_set included)
  | None =>
      match no_completers parsed_args with
      | Some excluded => ([], completers_ ∖ list_to_set excluded)
      | None =>
          if no_clang_completer parsed_args
          then ([deprecation_warning], completers_ ∖ {[ cfamily ]})
          else ([], completers_)
      end
  end.

(** Lines 186 to 190: the override from [USE_CLANG_COMPLETER]. *)
Definition env_override (environ : environment) (completers_ : gset string) :
    gset string :=
  match environ !! "USE_CLANG_COMPLETER" with
  | Some v =>
      if String.eqb v "false"
      then completers_ ∖ {[ cfamily ]}
      else completers_ ∪ {[ cfamily ]}
  | None => completers_
  end.

(** [FixupCompleters]: what it prints and the set it returns. The source
    returns [list( completers )], whose order Python leaves open; every
    reader of that list only tests membership. *)
Definition FixupCompleters (registry : dict completer_spec)
    (parsed_args : Namespace) (environ : environment) :
    list string * gset string :=
  let '(printed, completers_) := cli_completers registry parsed_args in
  (printed, env_override environ completers_).

(** [ParseArguments], from the namespace and the remaining arguments that
    [parse_known_args] returned. *)
Definition ParseArguments (registry : dict completer_spec)
    (parsed : Namespace * list string) (environ : environment) :
    list string * (Namespace * list string) :=
  let '(parsed_args, pytests_args) := parsed in
  let '(printed, completers_) :=
    FixupCompleters registry parsed_args environ in
  let parsed_args := with_completers (Some (elements completers_)) parsed_args in
  let parsed_args :=
    match environ !! "COVERAGE" with
    | Some v => with_coverage (String.eqb v "true") parsed_args
    | None => parsed_args
    end in
  (printed, (parsed_args, pytests_args)).

(** *** BuildYcmdLibs and PytestTests *)

Section Script.
(** [sys.executable], the directory of the script and [os.path.join]. *)
Variable sys_executable : string.
Variable DIR_OF_THIS_SCRIPT : string.
Variable p_join : string -> string -> string.
(** [platform.system() == 'Windows'] *)
Variable on_windows : bool.
Variable registry : dict completer_spec.

Definition DIR_OF_THIRD_PARTY : string := p_join DIR_OF_THIS_SCRIPT "third_party".
Definition LIBCLANG_DIR : string := p_join (p_join DIR_OF_THIRD_PARTY "clang") "lib".

(** Lines 197 to 200. *)
Definition add_dev_flags (environ : environment) : environment :=
  match environ !! "EXTRA_CMAKE_ARGS" with
  | Some v => <[ "EXTRA_CMAKE_ARGS" := v +:+ " -DUSE_DEV_FLAGS=ON" ]> environ
  | None => <[ "EXTRA_CMAKE_ARGS" := "-DUSE_DEV_FLAGS=ON" ]> environ
  end.

(** [for key in COMPLETERS: if key in args.completers: build_cmd.extend( ... )] *)
Fixpoint extend_build_flags (items : dict completer_spec)
    (selected : option (list string)) (build_cmd : list string) :
    result (list string) :=
  match items with
  | [] => Return build_cmd
  | (key, v) :: rest =>
      b ← contains key selected;
      extend_build_flags rest selected
        (if b : bool then build_cmd ++ build v else build_cmd)
  end.

(** [BuildYcmdLibs]: the new [os.environ] and the build command it runs, if
    any. The child inherits [os.environ]. *)
Definition BuildYcmdLibs (args : Namespace) (environ : environment) :
    result (environment * option process_call) :=
  if skip_build args then Return (environ, None)
  else
    let environ := add_dev_flags environ in
    let build_cmd :=
      [ sys_executable; p_join DIR_OF_THIS_SCRIPT "build.py"; "--core-tests" ] in
    build_cmd ← extend_build_flags registry (completers args) build_cmd;
    let build_cmd :=
      if Z.eqb (msvc args) 0 then build_cmd
      else build_cmd ++ [ "--msvc"; str_of_int (msvc args) ] in
    let build_cmd :=
      if coverage args
      then build_cmd ++ [ "--enable-coverage"; "--build-dir"; ".build" ]
      else build_cmd in
    let build_cmd :=
      if quiet args then build_cmd ++ [ "--quiet" ] else build_cmd in
    Return (environ, Some {| argv := build_cmd; env := environ |}).

(** The value [BASE_PYTEST_ARGS] is bound to when the module is loaded. *)
Definition BASE_PYTEST_ARGS_init : list string := [ "-v"; "--color=yes" ].

(** [for key in COMPLETERS: if key not in parsed_args.completers:
    pytests_args.extend( ... )] *)
Fixpoint extend_test_flags (items : dict completer_spec)
    (selected : option (list string)) (pytests_args : list string) :
    result (list string) :=
  match items with
  | [] => Return pytests_args
  | (key, v) :: rest =>
      b ← contains key selected;
      extend_test_flags rest selected
        (if b : bool then pytests_args else pytests_args ++ test v)
  end.

(** Lines 260 to 274. [pytests_args] is the very list [BASE_PYTEST_ARGS]
    names, and [extend], [+=] and [append] all work in place: the function
    takes the current content of that list and gives its new content. *)
Definition pytests_args_of (parsed_args : Namespace)
    (extra_pytests_args : list string) (BASE_PYTEST_ARGS : list string) :
    result (list string) :=
  let pytests_args := BASE_PYTEST_ARGS in
  pytests_args ← extend_test_flags registry (completers parsed_args) pytests_args;
  let pytests_args :=
    if coverage parsed_args
    then pytests_args ++ [ "--ignore=ycmd/tests/python/testdata"; "--cov=ycmd" ]
    else pytests_args in
  let pytests_args :=
    match extra_pytests_args with
    | [] => pytests_args ++ [ p_join DIR_OF_THIS_SCRIPT "ycmd" ]
    | _ => pytests_args ++ extra_pytests_args
    end in
  Return pytests_args.

(** Lines 276 to 287: the environment of the test process, a copy of
    [os.environ]. *)
Definition pytests_env (parsed_args : Namespace) (environ : environment) :
    result environment :=
  let env := environ in
  let env := if no_retry parsed_args then <[ "YCM_TEST_NO_RETRY" := "1" ]> env else env in
  if on_windows then
    match env !! "PATH" with
    | Some path => Return (<[ "PATH" := LIBCLANG_DIR +:+ ";" +:+ path ]> env)
    | None => Raise (KeyError "PATH")
    end
  else Return (<[ "LD_LIBRARY_PATH" := LIBCLANG_DIR ]> env).

(** [PytestTests]: the new content of [BASE_PYTEST_ARGS] and the test
    command. *)
Definition PytestTests (parsed_args : Namespace)
    (extra_pytests_args : list string) (environ : environment)
    (BASE_PYTEST_ARGS : list string) : result (list string * process_call) :=
  pytests_args ← pytests_args_of parsed_args extra_pytests_args BASE_PYTEST_ARGS;
  env ← pytests_env parsed_args environ;
  Return (pytests_args,
          {| argv := [ sys_executable; "-m"; "pytest" ] ++ pytests_args;
             env := env |}).

End Script.

(** The flags of the selected completers and the test flags of the others,
    as lists in the order of the registry: what the two loops are shown
    to append. *)
Definition selected_build_flags (registry : dict completer_spec)
    (selected : list string) : list string :=
  flat_map (fun kv => if bool_decide (kv.1 ∈ selected) then build kv.2 else [])
    registry.

Definition excluded_test_flags (registry : dict completer_spec)
    (selected : list string) : list string :=
  flat_map (fun kv => if bool_decide (kv.1 ∈ selected) then [] else test kv.2)
    registry.

End RunTests.

Import RunTests.

(** ** ycmd/wsgi_server.py *)

Module WsgiServer.

(** The lifecycle states the specification names. *)
Inductive ServerState : Type := Running | ShutdownRequested | Stopped.

(** Whether a call ended by returning. *)
Definition returned {A : Type} (r : result A) : bool :=
  match r with
  | Return _ => true
  | Raise _ => false
  end.

Section Server.
(** What the class inherits from waitress and asyncore, and does not
    define: the base server with its task dispatcher, its channels and
    their socket map [_map] (a dict from file descriptor to channel, in
    insertion order), and the two calls made on them, each of which
    changes the base server and returns or raises. *)
Variable waitress : Type.
Variable channel : Type.
Variable socket_map : waitress -> list (Z * channel).
Variable task_dispatcher_shutdown : waitress -> waitress * result unit.
Variable channel_close : channel -> waitress -> waitress * result unit.

Record server : Type := {
  shutdown_requested : bool;
  effective_host : string;
  effective_port : Z;
  base : waitress
}.

(** The state of the server. The class keeps one attribute,
    [shutdown_requested]; the specification's [Stopped] is the state
    "after dispatcher halt and channel closure complete", which is
    reached when a call of [Shutdown] has returned: [shutdown_returned]
    tells whether one has. *)
Definition state_of (self : server) (shutdown_returned : bool) : ServerState :=
  if shutdown_requested self
  then if shutdown_returned then Stopped else ShutdownRequested
  else Running.

(** [self.run()] of the base class: it blocks, and when it returns or
    raises the object is in the state other threads left it in. *)
Variable run : server -> server * result unit.

Definition serving_notice (self : server) : string :=
  "serving on http://" +:+ effective_host self +:+ ":" +:+
  str_of_int (effective_port self).

(** [Run]: what is printed, the server afterwards and the outcome.
    [stdin_attached] is [sys.stdin is not None]. [except select.error]
    catches every instance of [OSError]. *)
Definition Run (stdin_attached : bool) (self : server) :
    list string * server * result unit :=
  let printed := if stdin_attached then [ serving_notice self ] else [] in
  let '(self, outcome) := run self in
  match outcome with
  | Raise (OSError cls) =>
      if shutdown_requested self
      then (printed, self, Return tt)
      else (printed, self, Raise (OSError cls))
  | _ => (printed, self, outcome)
  end.

(** [self.shutdown_requested = True] *)
Definition request_shutdown (self : server) : server :=
  {| shutdown_requested := true;
     effective_host := effective_host self;
     effective_port := effective_port self;
     base := base self |}.

(** The object once a call has changed the base server. *)
Definition with_base (w : waitress) (self : server) : server :=
  {| shutdown_requested := shutdown_requested self;
     effective_host := effective_host self;
     effective_port := effective_port self;
     base := w |}.

(** [for channel in snapshot: channel.close()]: a call that raises ends
    the loop. *)
Fixpoint close_all (snapshot : list channel) (w : waitress) :
    waitress * result unit :=
  match snapshot with
  | [] => (w, Return tt)
  | c :: rest =>
      let '(w, r) := channel_close c w in
      match r with
      | Return _ => close_all rest w
      | Raise e => (w, Raise e)
      end
  end.

(** [Shutdown]: the server afterwards and the outcome. The copy
    [list( self._map.values() )] is taken when the dispatcher has
    returned. *)
Definition Shutdown (self : server) : server * result unit :=
  let self := request_shutdown self in
  let '(w, r) := task_dispatcher_shutdown (base self) in
  match r with
  | Raise e => (with_base w self, Raise e)
  | Return _ =>
      let snapshot := map snd (socket_map w) in
      let '(w, r) := close_all snapshot w in
      (with_base w self, r)
  end.

(** The base server after [channel.close()] on each channel of [l] in
    turn, and that each of these calls returns. *)
Definition closed (l : list channel) (w : waitress) : waitress :=
  foldl (fun w c => (channel_close c w).1) w l.

Fixpoint closes_return (l : list channel) (w : waitress) : Prop :=
  match l with
  | [] => True
  | c :: rest =>
      returned (channel_close c w).2 = true /\
      closes_return rest (channel_close c w).1
  end.

End Server.

Arguments shutdown_requested {waitress} _.
Arguments effective_host {waitress} _.
Arguments effective_port {waitress} _.
Arguments base {waitress} _.
Arguments state_of {waitress} _ _.

End WsgiServer.

(** ** Sample inputs *)

Module Samples.

(** [--completers go] *)
Definition only_go : Namespace := with_completers (Some [ "go" ]) default_args.


(** A script at [/ycmd] run by [python3] on a POSIX system. *)
Definition exe : string := "python3".
Definition script_dir : string := "/ycmd".
Definition posix_join (a b : string) : string := a +:+ "/" +:+ b.

(** [--no-completers] with every name of the registry. *)
Definition without_all : Namespace :=
  with_no_completers (Some (keys COMPLETERS)) default_args.

(** A base server whose state is its socket map, whose dispatcher holds
    nothing of it, and whose channels leave the map when they close; the
    channel 0 has a socket that cannot be closed. *)
Definition toy_waitress : Type := list (Z * nat).

Definition toy_dispatcher_shutdown (w : toy_waitress) :
    toy_waitress * result unit :=
  (w, Return tt).

Definition toy_close (c : nat) (w : toy_waitress) :
    toy_waitress * result unit :=
  (filter (fun kv => kv.2 <> c) w,
   if Nat.eqb c 0 then Raise (OSError "OSError") else Return tt).

Definition toy_server (requested : bool) : WsgiServer.server toy_waitress :=
  {| WsgiServer.shutdown_requested := requested;
     WsgiServer.effective_host := "127.0.0.1";
     WsgiServer.effective_port := 8080;
     WsgiServer.base := [ (3%Z, 30%nat); (4%Z, 40%nat) ] |}.

(** A server with the channel that cannot be closed between two others. *)
Definition toy_server_stuck : WsgiServer.server toy_waitress :=
  {| WsgiServer.shutdown_requested := false;
     WsgiServer.effective_host := "127.0.0.1";
     WsgiServer.effective_port := 8080;
     WsgiServer.base := [ (3%Z, 30%nat); (4%Z, 0%nat); (5%Z, 50%nat) ] |}.

(** A serve loop that an interrupt ends, with no shutdown requested. *)
Definition run_interrupted (self : WsgiServer.server toy_waitress) :
    WsgiServer.server toy_waitress * result unit :=
  (self, Raise (OSError "OSError")).

(** A serve loop that ends with an exception that is not [select.error]. *)
Definition run_failed (self : WsgiServer.server toy_waitress) :
    WsgiServer.server toy_waitress * result unit :=
  (self, Raise (OtherError "KeyboardInterrupt")).

(** [Shutdown] of such a server. *)
Definition toy_shutdown (self : WsgiServer.server toy_waitress) :
    WsgiServer.server toy_waitress * result unit :=
  WsgiServer.Shutdown toy_waitress nat (fun w => w) toy_dispatcher_shutdown
    toy_close self.

(** A serve loop that ends, after another thread has called [Shutdown],
    with the error of a socket closed under it. *)
Definition run_shut_down (self : WsgiServer.server toy_waitress) :
    WsgiServer.server toy_waitress * result unit :=
  ((toy_shutdown self).1, Raise (OSError "BrokenPipeError")).

End Samples.

(** ** run_tests.py: the functions that act on the system *)

Module Driver.

(** [s.split( sep )] for a one-character separator. *)
Fixpoint split (sep : Ascii.ascii) (s : string) : list string :=
  match s with
  | EmptyString => [ EmptyString ]
  | String c rest =>
      if Ascii.eqb c sep then EmptyString :: split sep rest
      else
        match split sep rest with
        | [] => [ String c EmptyString ]
        | word :: words => String c word :: words
        end
  end.

(** [chr( c ) in s] *)
Fixpoint has_char (c : Ascii.ascii) (s : string) : bool :=
  match s with
  | EmptyString => false
  | String c' rest => Ascii.eqb c' c || has_char c rest
  end.

(** What ends a run besides a normal return: an exception of [Py.exn],
    the [CalledProcessError] of [subprocess.check_call], or the
    [SystemExit] of [sys.exit]. *)
Inductive failure : Type :=
  | Exception (e : exn)
  | CalledProcessError (returncode : Z) (cmd : list string)
  | SystemExit (code : option string).

Inductive outcome (A : Type) : Type :=
  | Done (a : A)
  | Fail (f : failure).
Arguments Done {A} a.
Arguments Fail {A} f.

(** The calls that change something outside the interpreter, as the
    script makes them. A [Spawn] carries what the child exited with, or
    the exception that kept it from starting. *)
Inductive event : Type :=
  | Spawn (argv : list string) (env : environment) (status : result Z)
  | Chdir (path : string)
  | Makedirs (path : string)
  | Urlopen (url : string)
  | OpenWb (file_path : string)
  | ReadResponse (url : string)
  | Write (file_path : string) (data : string).

(** The constants of the interpreter and of the platform. *)
Class Platform : Type := {
  sys_executable : string;
  DIR_OF_THIS_SCRIPT : string;
  python_version : string;
  on_windows : bool;
  pathsep : Ascii.ascii;
  p_join : string -> string -> string;
  p_splitext : string -> string * string
}.

(** The system calls the script relies on, over a state [OS] of the file
    system, the network and the other processes; the current directory is
    part of it. A call that can fail gives the state it leaves and what
    it returned or raised. An open response is named by its URL and an
    open file by its path; closing them is not a call of its own. *)
Class System (OS : Type) : Type := {
  isfile : string -> OS -> bool;
  path_exists : string -> OS -> bool;
  getcwd : OS -> string;
  glob : string -> OS -> list string;
  chdir : string -> OS -> OS * result unit;
  makedirs : string -> OS -> OS * result unit;
  urlopen : string -> OS -> OS * result unit;
  open_wb : string -> OS -> OS * result unit;
  read_response : string -> OS -> OS * result string;
  write : string -> string -> OS -> OS * result unit;
  spawn : list string -> environment -> OS -> OS * result Z
}.

(** The two directories [BuildYcmdLibs] and [PytestTests] use, on the
    platform at hand. *)
Abbreviation DIR_OF_THIRD_PARTY :=
  (RunTests.DIR_OF_THIRD_PARTY DIR_OF_THIS_SCRIPT p_join).
Abbreviation LIBCLANG_DIR :=
  (RunTests.LIBCLANG_DIR DIR_OF_THIS_SCRIPT p_join).

Section Process.
Context `{Platform} {OS : Type} `{System OS}.
Variable registry : dict completer_spec.

(** The state of the running script: the system, [os.environ], the list
    [BASE_PYTEST_ARGS], what was printed and the calls made so far. *)
Record process : Type := {
  os : OS;
  environ : environment;
  BASE_PYTEST_ARGS : list string;
  stdout : list string;
  events : list event
}.

Definition M (A : Type) : Type := process -> process * outcome A.

Definition ret {A : Type} (a : A) : M A := fun p => (p, Done a).

#[global] Instance M_ret : MRet M := @ret.
#[global] Instance M_bind : MBind M :=
  fun A B k m p =>
    match m p with
    | (p, Done a) => k a p
    | (p, Fail f) => (p, Fail f)
    end.

Definition raise {A : Type} (f : failure) : M A := fun p => (p, Fail f).

Definition lift {A : Type} (r : result A) : M A :=
  match r with
  | Return a => ret a
  | Raise e => raise (Exception e)
  end.

Definition print (line : string) : M unit :=
  fun p =>
    ({| os := os p; environ := environ p;
        BASE_PYTEST_ARGS := BASE_PYTEST_ARGS p;
        stdout := stdout p ++ [ line ]; events := events p |}, Done tt).

Definition read_os {A : Type} (f : OS -> A) : M A :=
  fun p => (p, Done (f (os p))).

Definition get_environ : M environment := fun p => (p, Done (environ p)).

Definition set_environ (e : environment) : M unit :=
  fun p =>
    ({| os := os p; environ := e; BASE_PYTEST_ARGS := BASE_PYTEST_ARGS p;
        stdout := stdout p; events := events p |}, Done tt).

Definition get_BASE_PYTEST_ARGS : M (list string) :=
  fun p => (p, Done (BASE_PYTEST_ARGS p)).

Definition set_BASE_PYTEST_ARGS (l : list string) : M unit :=
  fun p =>
    ({| os := os p; environ := environ p; BASE_PYTEST_ARGS := l;
        stdout := stdout p; events := events p |}, Done tt).

(** A call on the system: the event is recorded, the system changes, and
    the result is returned or raised. *)
Definition call_os {A : Type} (ev : result A -> event)
    (f : OS -> OS * result A) : M A :=
  fun p =>
    let '(os', r) := f (os p) in
    ({| os := os'; environ := environ p;
        BASE_PYTEST_ARGS := BASE_PYTEST_ARGS p;
        stdout := stdout p; events := events p ++ [ ev r ] |},
     match r with
     | Return a => Done a
     | Raise e => Fail (Exception e)
     end).

(** [subprocess.check_call( argv, env = env )]; without [env] the child
    gets [os.environ]. *)
Definition check_call (argv : list string) (env : option environment) :
    M unit :=
  e ← get_environ;
  let env := default e env in
  status ← call_os (Spawn argv env) (spawn argv env);
  if Z.eqb status 0 then ret tt
  else raise (CalledProcessError status argv).

(** [sys.exit( code )] *)
Definition sys_exit {A : Type} (code : option string) : M A :=
  raise (SystemExit code).

(** *** The module's own statements: PYTHONPATH *)

Definition DIR_OF_WATCHDOG_DEPS : string := p_join DIR_OF_THIRD_PARTY "watchdog_deps".

Definition python_path : list string := [
  p_join DIR_OF_THIRD_PARTY "bottle";
  p_join DIR_OF_THIRD_PARTY "regex-build";
  p_join DIR_OF_THIRD_PARTY "frozendict";
  p_join (p_join DIR_OF_THIRD_PARTY "jedi_deps") "jedi";
  p_join (p_join DIR_OF_THIRD_PARTY "jedi_deps") "parso";
  p_join (p_join (p_join DIR_OF_WATCHDOG_DEPS "watchdog") "build") "lib3";
  p_join DIR_OF_WATCHDOG_DEPS "pathtools";
  p_join DIR_OF_THIRD_PARTY "waitress"
].

Definition os_pathsep : string := String pathsep EmptyString.

(** Lines 29 to 34: the value the module gives [PYTHONPATH]. *)
Definition set_PYTHONPATH (e : environment) : environment :=
  let python_path :=
    match e !! "PYTHONPATH" with
    | Some v => python_path ++ [ v ]
    | None => python_path
    end in
  <[ "PYTHONPATH" :=
       join os_pathsep python_path +:+ os_pathsep +:+
       p_join (p_join DIR_OF_THIRD_PARTY "jedi_deps") "numpydoc" ]> e.

Definition LOMBOK_VERSION : string := "1.18.16".

(** *** DownloadFileTo *)

Definition DownloadFileTo (download_url file_path : string) : M unit :=
  _ ← call_os (fun _ => Urlopen download_url) (urlopen download_url);
  _ ← call_os (fun _ => OpenWb file_path) (open_wb file_path);
  data ← call_os (fun _ => ReadResponse download_url)
           (read_response download_url);
  call_os (fun _ => Write file_path data) (write file_path data).

(** *** RunFlake8 *)

Definition RunFlake8 : M unit :=
  _ ← print "Running flake8";
  let args := [ sys_executable; "-m"; "flake8";
                p_join DIR_OF_THIS_SCRIPT "ycmd" ] in
  root_dir_scripts ← read_os (glob (p_join DIR_OF_THIS_SCRIPT "*.py"));
  let args := args ++ root_dir_scripts in
  check_call args None.

(** *** ParseArguments, BuildYcmdLibs and PytestTests on the process *)

Definition ParseArguments_run (parsed : Namespace * list string) :
    M (Namespace * list string) :=
  fun p =>
    let '(printed, parsed) := ParseArguments registry parsed (environ p) in
    ({| os := os p; environ := environ p;
        BASE_PYTEST_ARGS := BASE_PYTEST_ARGS p;
        stdout := stdout p ++ printed; events := events p |}, Done parsed).

(** [os.environ] is changed before the loop that can raise. *)
Definition BuildYcmdLibs_run (args : Namespace) : M unit :=
  e ← get_environ;
  match BuildYcmdLibs sys_executable DIR_OF_THIS_SCRIPT p_join registry args e
  with
  | Return (e, Some build) =>
      _ ← set_environ e;
      check_call (argv build) None
  | Return (e, None) => set_environ e
  | Raise exc =>
      _ ← set_environ (if skip_build args then e else add_dev_flags e);
      raise (Exception exc)
  end.

Definition PytestTests_run (parsed_args : Namespace)
    (extra_pytests_args : list string) : M unit :=
  base ← get_BASE_PYTEST_ARGS;
  pytests_args ← lift (pytests_args_of DIR_OF_THIS_SCRIPT p_join registry
                         parsed_args extra_pytests_args base);
  _ ← set_BASE_PYTEST_ARGS pytests_args;
  e ← get_environ;
  env ← lift (pytests_env DIR_OF_THIS_SCRIPT p_join on_windows parsed_args e);
  check_call ([ sys_executable; "-m"; "pytest" ] ++ pytests_args) (Some env).

(** *** PytestValgrind *)

Definition valgrind_cmd : list string := [
  "valgrind";
  "--gen-suppressions=all";
  "--error-exitcode=1";
  "--leak-check=full";
  "--show-leak-kinds=definite,indirect";
  "--errors-for-leak-kinds=definite,indirect";
  "--suppressions=" +:+ p_join DIR_OF_THIS_SCRIPT "valgrind.suppressions"
].

Definition tests_dir : string := p_join (p_join DIR_OF_THIS_SCRIPT "ycmd") "tests".

Definition PytestValgrind (parsed_args : Namespace)
    (extra_pytests_args : list string) : M unit :=
  pytests_args ← get_BASE_PYTEST_ARGS;
  pytests_args ←
    match extra_pytests_args with
    | [] =>
        bindings ← read_os (glob (p_join (p_join tests_dir "bindings") "*_test.py"));
        clang ← read_os (glob (p_join (p_join tests_dir "clang") "*_test.py"));
        top ← read_os (glob (p_join tests_dir "*_test.py"));
        ret (pytests_args ++ bindings ++ clang ++ top ++
             [ "-m"; "not valgrind_skip" ])
    | _ => ret (pytests_args ++ extra_pytests_args)
    end;
  _ ← set_BASE_PYTEST_ARGS pytests_args;
  e ← get_environ;
  let new_env :=
    <[ "LD_LIBRARY_PATH" := LIBCLANG_DIR ]> (<[ "PYTHONMALLOC" := "malloc" ]> e) in
  check_call (valgrind_cmd ++ [ sys_executable; "-m"; "pytest" ] ++ pytests_args)
    (Some new_env).

(** *** FindExecutable and FindExecutableOrDie *)

Definition WIN_EXECUTABLE_EXTS : list string := [ ".exe"; ".bat"; ".cmd" ].

(** [for path in paths: ...] *)
Fixpoint search_paths (o : OS) (paths : list string)
    (executable_name : string) : option string :=
  match paths with
  | [] => None
  | path :: rest =>
      let executable_path := p_join path executable_name in
      if isfile executable_path o then Some executable_path
      else search_paths o rest executable_name
  end.

(** [for extension in extensions: ...] *)
Fixpoint search_extensions (o : OS) (paths : list string)
    (executable : string) (extensions : list string) : option string :=
  match extensions with
  | [] => None
  | extension :: rest =>
      let executable_name := executable +:+ extension in
      if negb (isfile executable_name o) then
        match search_paths o paths executable_name with
        | Some executable_path => Some executable_path
        | None => search_extensions o paths executable rest
        end
      else Some executable_name
  end.

(** A name with one extension added is not found: neither as it is nor
    under a directory of the path. *)
Definition no_hit (o : OS) (paths : list string) (name : string) : Prop :=
  isfile name o = false /\
  forall d, d ∈ paths -> isfile (p_join d name) o = false.

(** The name with one extension added is found at [path]: as it is, or
    else under the first directory of the path that has it. *)
Definition first_hit (o : OS) (paths : list string) (name path : string) :
    Prop :=
  (isfile name o = true /\ path = name) \/
  (isfile name o = false /\
   exists before dir after,
     paths = before ++ dir :: after /\
     (forall d, d ∈ before -> isfile (p_join d name) o = false) /\
     isfile (p_join dir name) o = true /\
     path = p_join dir name).

(** The extensions to try: the three of Windows when the name has none
    of them, the empty one otherwise. *)
Definition executable_extensions (executable : string) : list string :=
  let '(base, extension) := p_splitext executable in
  if on_windows && negb (bool_decide (lower extension ∈ WIN_EXECUTABLE_EXTS))
  then WIN_EXECUTABLE_EXTS
  else [ EmptyString ].

Definition FindExecutable (executable : string) : M (option string) :=
  e ← get_environ;
  PATH ← lift (match e !! "PATH" with
               | Some v => Return v
               | None => Raise (KeyError "PATH")
               end);
  let paths := split pathsep PATH in
  let extensions := executable_extensions executable in
  read_os (fun o => search_extensions o paths executable extensions).

Definition unable_to_find (executable message : string) : string :=
  "ERROR: Unable to find executable '" +:+ executable +:+ "'. " +:+ message.

Definition FindExecutableOrDie (executable message : string) : M string :=
  path ← FindExecutable executable;
  match path with
  | Some path =>
      if String.eqb path EmptyString
      then sys_exit (Some (unable_to_find executable message))
      else ret path
  | None => sys_exit (Some (unable_to_find executable message))
  end.

(** *** SetUpGenericLSPCompleter and SetUpJavaCompleter *)

Definition SetUpGenericLSPCompleter : M unit :=
  old_cwd ← read_os getcwd;
  let generic_server := p_join DIR_OF_THIRD_PARTY "generic_server" in
  _ ← call_os (fun _ => Chdir generic_server) (chdir generic_server);
  npm ← FindExecutableOrDie "npm"
          ("npm is required to" +:+ "run GenericLSPCompleter tests.");
  _ ← check_call [ npm; "install" ] None;
  _ ← check_call [ npm; "run"; "compile" ] None;
  call_os (fun _ => Chdir old_cwd) (chdir old_cwd).

Definition SetUpJavaCompleter : M unit :=
  let LOMBOR_DIR := p_join DIR_OF_THIRD_PARTY "lombok" in
  let CACHE := p_join LOMBOR_DIR "cache" in
  let jar_name := "lombok-" +:+ LOMBOK_VERSION +:+ ".jar" in
  let url := "https://projectlombok.org/downloads/" +:+ jar_name in
  let file_name := p_join CACHE jar_name in
  cached ← read_os (path_exists CACHE);
  _ ← (if negb cached
       then call_os (fun _ => Makedirs CACHE) (makedirs CACHE)
       else ret tt);
  present ← read_os (path_exists file_name);
  if negb present then
    _ ← print ("Downloading lombok from " +:+ url +:+ "...");
    DownloadFileTo url file_name
  else ret tt.

(** *** Main *)

Definition Main (parsed : Namespace * list string) : M unit :=
  '(parsed_args, pytests_args) ← ParseArguments_run parsed;
  if dump_path parsed_args then
    e ← get_environ;
    PYTHONPATH ← lift (match e !! "PYTHONPATH" with
                       | Some v => Return v
                       | None => Raise (KeyError "PYTHONPATH")
                       end);
    _ ← print PYTHONPATH;
    sys_exit None
  else
    _ ← print ("Running tests on Python " +:+ python_version);
    _ ← (if negb (skip_build parsed_args)
         then _ ← SetUpGenericLSPCompleter; SetUpJavaCompleter
         else ret tt);
    _ ← (if negb (no_flake8 parsed_args) then RunFlake8 else ret tt);
    _ ← BuildYcmdLibs_run parsed_args;
    if valgrind parsed_args
    then PytestValgrind parsed_args pytests_args
    else PytestTests_run parsed_args pytests_args.

(** The script from its first statement: the module sets [PYTHONPATH]
    and binds [BASE_PYTEST_ARGS], then [Main] runs. *)
Definition script (parsed : Namespace * list string) : M unit :=
  fun p =>
    Main parsed
      {| os := os p; environ := set_PYTHONPATH (environ p);
         BASE_PYTEST_ARGS := BASE_PYTEST_ARGS_init;
         stdout := stdout p; events := events p |}.

(** *** What a run leaves in the record of calls *)

Definition failed {A : Type} (o : outcome A) : option failure :=
  match o with
  | Done _ => None
  | Fail f => Some f
  end.

(** A computation appends events to the record, and the events and the
    way it ended satisfy [S]. *)
Definition runs {A : Type} (S : list event -> option failure -> Prop)
    (m : M A) : Prop :=
  forall p, exists evs,
    events (m p).1 = events p ++ evs /\ S evs (failed (m p).2).

(** [S1] and then, if it did not fail, [S2]. *)
Definition seq (S1 S2 : list event -> option failure -> Prop)
    (evs : list event) (f : option failure) : Prop :=
  exists evs1 evs2 f1,
    evs = evs1 ++ evs2 /\ S1 evs1 f1 /\
    match f1 with
    | Some _ => evs2 = [] /\ f = f1
    | None => S2 evs2 f
    end.

(** No call on the system, and the given end. *)
Definition silent (f0 : option failure) (evs : list event)
    (f : option failure) : Prop :=
  evs = [] /\ f = f0.

Definition spawn_ok (ev : event) : Prop :=
  match ev with
  | Spawn _ _ status => status = Return 0%Z
  | _ => True
  end.

(** What a child that did not exit with 0 makes [check_call] raise. *)
Definition spawn_failure (argv : list string) (status : result Z) : failure :=
  match status with
  | Return returncode => CalledProcessError returncode argv
  | Raise e => Exception e
  end.

(** Every child exited with 0 and no [CalledProcessError] is raised, or
    the last event is a child that did not, and what it makes
    [check_call] raise ends the run. *)
Definition fail_fast (evs : list event) (f : option failure) : Prop :=
  (Forall spawn_ok evs /\
   forall returncode cmd, f <> Some (CalledProcessError returncode cmd)) \/
  (exists before argv env status,
     evs = before ++ [ Spawn argv env status ] /\
     Forall spawn_ok before /\
     status <> Return 0%Z /\
     f = Some (spawn_failure argv status)).

(** The events of the set-up: anything but a child other than npm. *)
Definition setup_event (ev : event) : Prop :=
  match ev with
  | Spawn argv _ _ =>
      exists npm, argv = [ npm; "install" ] \/ argv = [ npm; "run"; "compile" ]
  | _ => True
  end.

Definition flake8_events (evs : list event) : Prop :=
  evs = [] \/
  exists scripts env status,
    evs = [ Spawn ([ sys_executable; "-m"; "flake8";
                     p_join DIR_OF_THIS_SCRIPT "ycmd" ] ++ scripts)
              env status ].

Definition build_events (evs : list event) : Prop :=
  evs = [] \/
  exists flags env status,
    evs = [ Spawn ([ sys_executable; p_join DIR_OF_THIS_SCRIPT "build.py";
                     "--core-tests" ] ++ flags)
              env status ].

Definition test_events (under_valgrind : bool) (evs : list event) : Prop :=
  evs = [] \/
  exists args env status,
    evs = [ Spawn ((if under_valgrind then valgrind_cmd else []) ++
                   [ sys_executable; "-m"; "pytest" ] ++ args)
              env status ].

End Process.

Arguments process OS : clear implicits.
Arguments M OS A : clear implicits.

End Driver.

(** ** A small machine to run the script on *)

Module Machine.

Import Driver.

(** The character of a one-character string. *)
Definition char (s : string) : Ascii.ascii :=
  match s with
  | String c _ => c
  | EmptyString => Ascii.zero
  end.

(** [os.path.splitext] for a name without directories: the extension
    starts at the last dot. *)
Fixpoint splitext (s : string) : string * string :=
  match s with
  | EmptyString => (EmptyString, EmptyString)
  | String c rest =>
      let '(base, ext) := splitext rest in
      if String.eqb ext EmptyString && Ascii.eqb c (char ".")
      then (EmptyString, s)
      else (String c base, ext)
  end.

Definition backslash : string := String (Ascii.ascii_of_nat 92) EmptyString.

Definition posix : Platform :=
  {| sys_executable := "/usr/bin/python3";
     DIR_OF_THIS_SCRIPT := "/ycmd";
     python_version := "3.9.0";
     on_windows := false;
     pathsep := char ":";
     p_join := Samples.posix_join;
     p_splitext := splitext |}.

Definition windows : Platform :=
  {| sys_executable := "C:/Python39/python.exe";
     DIR_OF_THIS_SCRIPT := "C:/ycmd";
     python_version := "3.9.0";
     on_windows := true;
     pathsep := char ";";
     p_join := fun a b => a +:+ backslash +:+ b;
     p_splitext := splitext |}.

(** The files, the directories, the current directory, the URLs whose
    response cannot be read and the commands that exit with 1. *)
Record machine : Type := {
  files : list string;
  dirs : list string;
  cwd : string;
  unreadable : list string;
  failing : list (list string)
}.

Definition machine_chdir (path : string) (o : machine) :
    machine * result unit :=
  if bool_decide (path ∈ dirs o)
  then ({| files := files o; dirs := dirs o; cwd := path;
           unreadable := unreadable o; failing := failing o |}, Return tt)
  else (o, Raise (OSError "FileNotFoundError")).

Definition machine_makedirs (path : string) (o : machine) :
    machine * result unit :=
  ({| files := files o; dirs := path :: dirs o; cwd := cwd o;
      unreadable := unreadable o; failing := failing o |}, Return tt).

Definition machine_open_wb (file_path : string) (o : machine) :
    machine * result unit :=
  ({| files := file_path :: files o; dirs := dirs o; cwd := cwd o;
      unreadable := unreadable o; failing := failing o |}, Return tt).

Definition machine_read_response (url : string) (o : machine) :
    machine * result string :=
  if bool_decide (url ∈ unreadable o)
  then (o, Raise (OtherError "IncompleteRead"))
  else (o, Return "jar").

Definition machine_spawn (argv : list string) (env : environment)
    (o : machine) : machine * result Z :=
  (o, Return (if bool_decide (argv ∈ failing o) then 1%Z else 0%Z)).

Definition machine_system : System machine :=
  {| isfile := fun path o => bool_decide (path ∈ files o);
     path_exists := fun path o => bool_decide (path ∈ files o ++ dirs o);
     getcwd := cwd;
     glob := fun _ _ => [];
     chdir := machine_chdir;
     makedirs := machine_makedirs;
     urlopen := fun _ o => (o, Return tt);
     open_wb := machine_open_wb;
     read_response := machine_read_response;
     write := fun _ _ o => (o, Return tt);
     spawn := machine_spawn |}.

Definition start (o : machine) (e : environment) : process machine :=
  {| os := o; environ := e; BASE_PYTEST_ARGS := [ "-v"; "--color=yes" ];
     stdout := []; events := [] |}.

(** A POSIX machine with npm in [/bin] and the checkout at [/ycmd]. *)
Definition with_npm : machine :=
  {| files := [ "/bin/npm" ];
     dirs := [ "/ycmd"; "/ycmd/third_party/generic_server" ];
     cwd := "/ycmd";
     unreadable := [];
     failing := [] |}.

(** The same machine without npm. *)
Definition without_npm : machine :=
  {| files := [];
     dirs := [ "/ycmd"; "/ycmd/third_party/generic_server" ];
     cwd := "/ycmd";
     unreadable := [];
     failing := [] |}.

(** A machine with the cache directory of lombok, and whose download of
    the jar breaks while the response is read. *)
Definition broken_download : machine :=
  {| files := [];
     dirs := [ "/ycmd"; "/ycmd/third_party/lombok/cache" ];
     cwd := "/ycmd";
     unreadable := [ "https://projectlombok.org/downloads/lombok-1.18.16.jar" ];
     failing := [] |}.

(** A Windows machine with [npm.cmd] next to the script and [npm.exe] in
    the second directory of [PATH]. *)
Definition with_npm_exe : machine :=
  {| files := [ "npm.cmd"; "C:/nodejs" +:+ backslash +:+ "npm.exe" ];
     dirs := [];
     cwd := "C:/ycmd";
     unreadable := [];
     failing := [] |}.

Definition posix_environ : environment :=
  {[ "PATH" := "/usr/bin:/bin" ]}.

Definition windows_environ : environment :=
  {[ "PATH" := "C:/Windows;C:/nodejs" ]}.

(** [--dump-path --skip-build] *)
Definition dump_path_args : Namespace :=
  {| no_clang_completer := false;
     no_completers := None;
     completers := None;
     skip_build := true;
     msvc := 16;
     coverage := false;
     no_flake8 := false;
     dump_path := true;
     no_retry := false;
     quiet := false;
     valgrind := false |}.

End Machine.

(** * Properties *)

(** ** Dictionaries *)

Module PyFacts.

Section DictFacts.
Context {V : Type}.
Implicit Types (d : dict V) (k : string) (v : V).

Lemma mem_keys k d : mem k d = true <-> k ∈ keys d.
Proof.
  unfold mem, keys. induction d as [|[k' v'] d IH]; simpl.
  - split; [discriminate | intros H; inversion H].
  - destruct (String.eqb k k') eqn:E.
    + apply String.eqb_eq in E. subst. split; [intros _; left | reflexivity].
    + apply String.eqb_neq in E. rewrite IH. split.
      * intros H. right. exact H.
      * intros H. inversion H; subst; [congruence | assumption].
Qed.

Lemma mem_false_keys k d : mem k d = false <-> k ∉ keys d.
Proof.
  rewrite <- mem_keys. destruct (mem k d); split; congruence.
Qed.

Lemma get_set_eq k v d : get k (Py.set k v d) = Some v.
Proof.
  induction d as [|[k' v'] d IH]; simpl.
  - rewrite String.eqb_refl. reflexivity.
  - destruct (String.eqb k k') eqn:E; simpl; rewrite E; [reflexivity | exact IH].
Qed.

Lemma get_set_ne k k0 v d : k0 <> k -> get k0 (Py.set k v d) = get k0 d.
Proof.
  intros Hne. induction d as [|[k' v'] d IH]; simpl.
  - apply String.eqb_neq in Hne. rewrite Hne. reflexivity.
  - destruct (String.eqb k k') eqn:E; simpl.
    + apply String.eqb_eq in E. subst k'.
      apply String.eqb_neq in Hne. rewrite Hne. reflexivity.
    + rewrite IH. reflexivity.
Qed.

(** Assigning to a key that is present keeps the keys and their order;
    assigning to a new key puts it last. *)
Lemma keys_set k v d :
  keys (Py.set k v d) = if mem k d then keys d else keys d ++ [k].
Proof.
  unfold mem, keys. induction d as [|[k' v'] d IH]; simpl; [reflexivity|].
  destruct (String.eqb k k') eqn:E; simpl; [reflexivity|].
  rewrite IH. destruct (get k d); reflexivity.
Qed.

End DictFacts.

Lemma lower_idempotent s : lower (lower s) = lower s.
Proof.
  induction s as [|c s IH]; simpl; [reflexivity|]. f_equal; [|exact IH].
  clear. destruct c as [[] [] [] [] [] [] [] []]; reflexivity.
Qed.

End PyFacts.

Import PyFacts.

(** ** The registry and the lookup *)

Module RunTestsFacts.

Lemma COMPLETERS_eq :
  COMPLETERS = add_simple_completers SIMPLE_COMPLETERS EXPLICIT_COMPLETERS.
Proof. reflexivity. Qed.

Lemma registry_keys :
  keys COMPLETERS =
  [ "cfamily"; "cs"; "javascript"; "typescript"; "python"; "java";
    "clangd"; "rust"; "go" ].
Proof. reflexivity. Qed.

Lemma get_add_simple_other (simple : list string) (d : dict completer_spec)
    (k : string) :
  k ∉ simple -> get k (add_simple_completers simple d) = get k d.
Proof.
  revert d. induction simple as [|c rest IH]; intros d Hk; simpl; [reflexivity|].
  rewrite IH by (intros H; apply Hk; right; exact H).
  apply get_set_ne. intros ->. apply Hk. left.
Qed.

Lemma get_add_simple_in (simple : list string) (d : dict completer_spec)
    (n : string) :
  n ∈ simple -> get n (add_simple_completers simple d) = Some (simple_spec n).
Proof.
  revert d. induction simple as [|c rest IH]; intros d Hn; simpl.
  - inversion Hn.
  - destruct (decide (n ∈ rest)) as [Hin|Hout].
    + apply IH. exact Hin.
    + rewrite get_add_simple_other by exact Hout.
      inversion Hn; subst; [apply get_set_eq | contradiction].
Qed.

(** C5, as the code has it: the construction gives every simple entry its
    derived flags and never fails; a simple entry whose name an explicit
    entry has replaces that entry, and the other explicit entries stay. *)
Theorem registry_construction (simple : list string)
    (explicit : dict completer_spec) :
  exists registry,
    build_registry simple explicit = Return registry /\
    (forall n, n ∈ simple ->
       exists spec, get n registry = Some spec /\
         build spec = [ "--" +:+ n +:+ "-completer" ] /\
         test spec = [ "--ignore=ycmd/tests/" +:+ n ] /\
         aliases spec = None) /\
    (forall k, k ∉ simple -> get k registry = get k explicit).
Proof.
  exists (add_simple_completers simple explicit). split; [reflexivity|]. split.
  - intros n Hn. exists (simple_spec n).
    split; [apply get_add_simple_in; exact Hn|]. repeat split.
  - intros k Hk. apply get_add_simple_other. exact Hk.
Qed.

(** C5, counterexample: with the simple entry [cs], a name of the explicit
    literal, the construction does not fail; it gives a registry in which
    the derived entry has taken the place of the explicit one. *)
Lemma registry_construction_shared_name :
  "cs" ∈ [ "cs" ] /\ mem "cs" EXPLICIT_COMPLETERS = true /\
  ~ raises (build_registry [ "cs" ] EXPLICIT_COMPLETERS) /\
  (registry ← build_registry [ "cs" ] EXPLICIT_COMPLETERS;
   Return (get "cs" registry)) = Return (Some (simple_spec "cs")).
Proof.
  split; [left|]. split; [reflexivity|]. split; [intros []|reflexivity].
Qed.

(** *** CompleterType *)

Lemma aliases_to_completer_from_KeyError (items : dict completer_spec)
    (acc : gmap string string) :
  Exists (fun kv => aliases kv.2 = None) items ->
  aliases_to_completer_from items acc = Raise (KeyError "aliases").
Proof.
  revert acc. induction items as [|[k v] rest IH]; intros acc Hex.
  - inversion Hex.
  - simpl. unfold getitem_aliases. destruct (aliases v) as [als|] eqn:Hv.
    + simpl. apply IH. inversion Hex as [? ? Hhd|? ? Htl]; subst; simpl in *.
      * congruence.
      * exact Htl.
    + reflexivity.
Qed.

(** A name of the registry is found whatever its case. *)
Lemma CompleterType_canonical (registry : dict completer_spec)
    (value : string) :
  mem (lower value) registry = true ->
  CompleterType registry value = Return (lower value).
Proof. intros H. unfold CompleterType. rewrite H. reflexivity. Qed.

(** At [RUST]. *)
Lemma CompleterType_canonical_sample :
  mem (lower "RUST") COMPLETERS = true /\
  CompleterType COMPLETERS "RUST" = Return "rust".
Proof.
  split; [reflexivity|].
  apply (CompleterType_canonical COMPLETERS "RUST"). reflexivity.
Defined.

(** C1, what the code does: an input that is not a name of the registry,
    whether it is an alias or not, ends in [KeyError], raised by the
    comprehension at the first simple completer, which has no ['aliases']
    key; the alias is not resolved and no [ArgumentTypeError] is raised. *)
Theorem CompleterType_KeyError (value : string) :
  mem (lower value) COMPLETERS = false ->
  CompleterType COMPLETERS value = Raise (KeyError "aliases").
Proof.
  intros H. unfold CompleterType. rewrite H.
  unfold aliases_to_completer.
  rewrite aliases_to_completer_from_KeyError; [reflexivity|].
  apply Exists_exists. exists ("clangd", simple_spec "clangd").
  split; [|reflexivity]. apply list_elem_of_In. vm_compute. tauto.
Qed.

(** C1, at the alias [clang] of [cfamily]. *)
Lemma CompleterType_KeyError_clang :
  mem (lower "clang") COMPLETERS = false /\
  CompleterType COMPLETERS "clang" = Raise (KeyError "aliases").
Proof.
  split; [reflexivity | apply (CompleterType_KeyError "clang"); reflexivity].
Defined.

Example CompleterType_unknown_name :
  CompleterType COMPLETERS "fortran" = Raise (KeyError "aliases").
Proof. vm_compute. reflexivity. Qed.

Example CompleterType_mixed_case :
  CompleterType COMPLETERS "CFamily" = Return "cfamily".
Proof. vm_compute. reflexivity. Qed.

(** On the explicit literal alone, whose entries all have aliases, the
    same function resolves an alias and rejects an unknown name. *)
Example CompleterType_explicit_alias :
  CompleterType EXPLICIT_COMPLETERS "C++" = Return "cfamily".
Proof. vm_compute. reflexivity. Qed.

Example CompleterType_explicit_unknown :
  CompleterType EXPLICIT_COMPLETERS "Fortran" =
  Raise (ArgumentTypeError
    ("fortran is not a valid completer - should be one of " +:+
     "dict_keys(['cfamily', 'cs', 'javascript', 'typescript', 'python', 'java'])")).
Proof. vm_compute. reflexivity. Qed.

(** *** FixupCompleters *)

Lemma FixupCompleters_snd (registry : dict completer_spec)
    (parsed_args : Namespace) (environ : environment) :
  (FixupCompleters registry parsed_args environ).2 =
  env_override environ (cli_completers registry parsed_args).2.
Proof.
  unfold FixupCompleters. destruct (cli_completers registry parsed_args).
  reflexivity.
Qed.

Lemma FixupCompleters_fst (registry : dict completer_spec)
    (parsed_args : Namespace) (environ : environment) :
  (FixupCompleters registry parsed_args environ).1 =
  (cli_completers registry parsed_args).1.
Proof.
  unfold FixupCompleters. destruct (cli_completers registry parsed_args).
  reflexivity.
Qed.

Lemma env_override_unset (environ : environment) (s : gset string) :
  environ !! "USE_CLANG_COMPLETER" = None -> env_override environ s = s.
Proof. intros H. unfold env_override. rewrite H. reflexivity. Qed.

Lemma env_override_false (environ : environment) (s : gset string) :
  environ !! "USE_CLANG_COMPLETER" = Some "false" ->
  env_override environ s = s ∖ {[ cfamily ]}.
Proof. intros H. unfold env_override. rewrite H. reflexivity. Qed.

Lemma env_override_other (environ : environment) (s : gset string)
    (v : string) :
  environ !! "USE_CLANG_COMPLETER" = Some v -> v <> "false" ->
  env_override environ s = s ∪ {[ cfamily ]}.
Proof.
  intros H Hv. unfold env_override. rewrite H.
  apply String.eqb_neq in Hv. rewrite Hv. reflexivity.
Qed.

Lemma env_override_cfamily (environ : environment) (s : gset string)
    (v : string) :
  environ !! "USE_CLANG_COMPLETER" = Some v ->
  cfamily ∈ env_override environ s <-> v <> "false".
Proof.
  intros H. destruct (decide (v = "false")) as [->|Hv].
  - rewrite env_override_false by exact H.
    rewrite elem_of_difference, elem_of_singleton. tauto.
  - rewrite (env_override_other _ _ v) by assumption.
    rewrite elem_of_union, elem_of_singleton. tauto.
Qed.

(** C2: the override is the last step of [FixupCompleters], for every
    namespace, registry and environment; when the variable is set, its
    value alone decides whether [cfamily] is in the result, whatever the
    selection options and the legacy flag are. With [--completers go] and
    the variable set to [true], the result is [go] and [cfamily]. *)
Theorem env_override_is_final :
  (forall (registry : dict completer_spec) (parsed_args : Namespace)
          (environ : environment),
     (FixupCompleters registry parsed_args environ).2 =
       env_override environ (cli_completers registry parsed_args).2) /\
  (forall (registry : dict completer_spec) (parsed_args : Namespace)
          (environ : environment) (v : string),
     environ !! "USE_CLANG_COMPLETER" = Some v ->
     (cfamily ∈ (FixupCompleters registry parsed_args environ).2 <->
      v <> "false")) /\
  (FixupCompleters COMPLETERS Samples.only_go
     {[ "USE_CLANG_COMPLETER" := "true" ]}).2 = {[ "go"; "cfamily" ]}.
Proof.
  split; [|split].
  - intros registry parsed_args environ. apply FixupCompleters_snd.
  - intros registry parsed_args environ v H.
    rewrite FixupCompleters_snd. apply env_override_cfamily. exact H.
  - vm_compute. reflexivity.
Qed.

(** C2, at conflicting inputs: [--completers cfamily] with the variable
    set to [false], and [--no-completers cfamily] with it set to [1]. *)
Lemma env_override_is_final_conflicts :
  (cfamily ∈ (FixupCompleters COMPLETERS
     (with_completers (Some [ "cfamily" ]) default_args)
     {[ "USE_CLANG_COMPLETER" := "false" ]}).2 <-> "false" <> "false") /\
  (cfamily ∈ (FixupCompleters COMPLETERS
     (with_no_completers (Some [ "cfamily" ]) default_args)
     {[ "USE_CLANG_COMPLETER" := "1" ]}).2 <-> "1" <> "false").
Proof.
  split.
  - apply (proj1 (proj2 env_override_is_final) COMPLETERS
             (with_completers (Some [ "cfamily" ]) default_args)
             {[ "USE_CLANG_COMPLETER" := "false" ]} "false").
    reflexivity.
  - apply (proj1 (proj2 env_override_is_final) COMPLETERS
             (with_no_completers (Some [ "cfamily" ]) default_args)
             {[ "USE_CLANG_COMPLETER" := "1" ]} "1").
    reflexivity.
Defined.

(** C10: only the value [false] removes [cfamily]; any other value of the
    variable, [False], [0] and the empty string among them, adds it; with
    the variable unset the step changes nothing. *)
Theorem env_override_values (registry : dict completer_spec)
    (parsed_args : Namespace) (environ : environment) :
  let selected := (cli_completers registry parsed_args).2 in
  let result := (FixupCompleters registry parsed_args environ).2 in
  (environ !! "USE_CLANG_COMPLETER" = Some "false" ->
     result = selected ∖ {[ cfamily ]} /\ cfamily ∉ result) /\
  (forall v, environ !! "USE_CLANG_COMPLETER" = Some v -> v <> "false" ->
     result = selected ∪ {[ cfamily ]} /\ cfamily ∈ result) /\
  (forall v, environ !! "USE_CLANG_COMPLETER" = Some v ->
     v ∈ [ "False"; "0"; EmptyString ] -> cfamily ∈ result) /\
  (environ !! "USE_CLANG_COMPLETER" = None -> result = selected).
Proof.
  intros selected result. subst selected result.
  rewrite FixupCompleters_snd. split; [|split; [|split]].
  - intros H. split; [apply env_override_false; exact H|].
    rewrite (env_override_cfamily _ _ _ H). tauto.
  - intros v H Hv. split; [apply (env_override_other _ _ v); assumption|].
    rewrite (env_override_cfamily _ _ _ H). exact Hv.
  - intros v H Hv. rewrite (env_override_cfamily _ _ _ H).
    rewrite !elem_of_cons in Hv.
    destruct Hv as [->|[->|[->|Hv]]]; [discriminate..|inversion Hv].
  - apply env_override_unset.
Qed.

(** C10, at [--no-completers cfamily] with the variable set to [False],
    to [0] and to the empty string, and at [--completers cfamily] with
    the variable set to [false]. *)
Lemma env_override_values_samples :
  let excluded := with_no_completers (Some [ "cfamily" ]) default_args in
  let included := with_completers (Some [ "cfamily" ]) default_args in
  cfamily ∈ (FixupCompleters COMPLETERS excluded
               {[ "USE_CLANG_COMPLETER" := "False" ]}).2 /\
  cfamily ∈ (FixupCompleters COMPLETERS excluded
               {[ "USE_CLANG_COMPLETER" := "0" ]}).2 /\
  cfamily ∈ (FixupCompleters COMPLETERS excluded
               {[ "USE_CLANG_COMPLETER" := EmptyString ]}).2 /\
  cfamily ∉ (FixupCompleters COMPLETERS included
               {[ "USE_CLANG_COMPLETER" := "false" ]}).2.
Proof.
  intros excluded included. split; [|split; [|split]].
  - apply (proj1 (proj2 (proj2 (env_override_values COMPLETERS excluded
             {[ "USE_CLANG_COMPLETER" := "False" ]}))) "False");
      [reflexivity | rewrite !elem_of_cons; tauto].
  - apply (proj1 (proj2 (proj2 (env_override_values COMPLETERS excluded
             {[ "USE_CLANG_COMPLETER" := "0" ]}))) "0");
      [reflexivity | rewrite !elem_of_cons; tauto].
  - apply (proj1 (proj2 (proj2 (env_override_values COMPLETERS excluded
             {[ "USE_CLANG_COMPLETER" := EmptyString ]}))) EmptyString);
      [reflexivity | rewrite !elem_of_cons; tauto].
  - apply (proj1 (env_override_values COMPLETERS included
             {[ "USE_CLANG_COMPLETER" := "false" ]})).
    reflexivity.
Defined.



Lemma cli_completers_subset (registry : dict completer_spec)
    (parsed_args : Namespace) :
  (forall included, completers parsed_args = Some included ->
     forall n, n ∈ included -> n ∈ keys registry) ->
  (cli_completers registry parsed_args).2 ⊆ list_to_set (keys registry).
Proof.
  intros Hinc. unfold cli_completers.
  destruct (completers parsed_args) as [included|]; simpl.
  - intros n Hn. apply elem_of_list_to_set. apply (Hinc included eq_refl).
    apply elem_of_list_to_set in Hn. exact Hn.
  - destruct (no_completers parsed_args) as [excluded|]; simpl.
    + intros n Hn. apply elem_of_difference in Hn. tauto.
    + destruct (no_clang_completer parsed_args); simpl.
      * intros n Hn. apply elem_of_difference in Hn. tauto.
      * reflexivity.
Qed.

Lemma env_override_subset (environ : environment) (s names : gset string) :
  cfamily ∈ names -> s ⊆ names -> env_override environ s ⊆ names.
Proof.
  intros Hc Hs. unfold env_override.
  destruct (environ !! "USE_CLANG_COMPLETER") as [v|]; [|exact Hs].
  destruct (String.eqb v "false"); intros n Hn.
  - apply elem_of_difference in Hn. apply Hs. tauto.
  - apply elem_of_union in Hn. destruct Hn as [Hn|Hn]; [apply Hs; exact Hn|].
    apply elem_of_singleton in Hn. subst n. exact Hc.
Qed.

(** C4: when the names given to [--completers] are names of the registry,
    every name [FixupCompleters] returns is a name of the registry. *)
Theorem resolved_subset_of_registry (parsed_args : Namespace)
    (environ : environment) :
  (forall included, completers parsed_args = Some included ->
     forall n, n ∈ included -> n ∈ keys COMPLETERS) ->
  (FixupCompleters COMPLETERS parsed_args environ).2 ⊆
  list_to_set (keys COMPLETERS).
Proof.
  intros Hinc. rewrite FixupCompleters_snd. apply env_override_subset.
  - apply elem_of_list_to_set. apply list_elem_of_In. vm_compute. tauto.
  - apply cli_completers_subset. exact Hinc.
Qed.

(** C4, at [--completers go] with the variable set to [true]. *)
Lemma resolved_subset_of_registry_sample :
  (FixupCompleters COMPLETERS Samples.only_go
     {[ "USE_CLANG_COMPLETER" := "true" ]}).2 ⊆
  list_to_set (keys COMPLETERS).
Proof.
  apply (resolved_subset_of_registry Samples.only_go).
  intros included Hinc n Hn. injection Hinc as <-.
  apply list_elem_of_singleton in Hn. subst n.
  apply list_elem_of_In. vm_compute. tauto.
Defined.

(** *** BuildYcmdLibs *)

Section ScriptFacts.
Variable sys_executable : string.
Variable DIR_OF_THIS_SCRIPT : string.
Variable p_join : string -> string -> string.
Variable registry : dict completer_spec.

Lemma extend_build_flags_eq (items : dict completer_spec)
    (selected build_cmd : list string) :
  extend_build_flags items (Some selected) build_cmd =
  Return (build_cmd ++ selected_build_flags items selected).
Proof.
  revert build_cmd. induction items as [|[key v] rest IH]; intros build_cmd.
  - simpl. rewrite app_nil_r. reflexivity.
  - simpl. rewrite IH. unfold selected_build_flags. simpl.
    destruct (bool_decide (key ∈ selected)); simpl.
    + rewrite app_assoc. reflexivity.
    + reflexivity.
Qed.

Lemma extend_test_flags_eq (items : dict completer_spec)
    (selected pytests_args : list string) :
  extend_test_flags items (Some selected) pytests_args =
  Return (pytests_args ++ excluded_test_flags items selected).
Proof.
  revert pytests_args.
  induction items as [|[key v] rest IH]; intros pytests_args.
  - simpl. rewrite app_nil_r. reflexivity.
  - simpl. rewrite IH. unfold excluded_test_flags. simpl.
    destruct (bool_decide (key ∈ selected)); simpl.
    + reflexivity.
    + rewrite app_assoc. reflexivity.
Qed.

(** The build command as a function of the namespace alone. *)
Lemma BuildYcmdLibs_eq (args : Namespace) (selected : list string)
    (environ : environment) :
  skip_build args = false -> completers args = Some selected ->
  BuildYcmdLibs sys_executable DIR_OF_THIS_SCRIPT p_join registry args environ =
  Return
    (add_dev_flags environ,
     Some {| argv :=
               [ sys_executable; p_join DIR_OF_THIS_SCRIPT "build.py";
                 "--core-tests" ] ++
               selected_build_flags registry selected ++
               (if Z.eqb (msvc args) 0 then []
                else [ "--msvc"; str_of_int (msvc args) ]) ++
               (if coverage args
                then [ "--enable-coverage"; "--build-dir"; ".build" ]
                else []) ++
               (if quiet args then [ "--quiet" ] else []);
             env := add_dev_flags environ |}).
Proof.
  intros Hskip Hsel. unfold BuildYcmdLibs. rewrite Hskip, Hsel.
  rewrite extend_build_flags_eq. simpl.
  destruct (Z.eqb (msvc args) 0), (coverage args), (quiet args); simpl;
    rewrite ?app_nil_r, <- ?app_assoc; reflexivity.
Qed.

Lemma add_dev_flags_lookup (environ : environment) :
  add_dev_flags environ !! "EXTRA_CMAKE_ARGS" =
  Some match environ !! "EXTRA_CMAKE_ARGS" with
       | Some v => v +:+ " -DUSE_DEV_FLAGS=ON"
       | None => "-DUSE_DEV_FLAGS=ON"
       end.
Proof.
  unfold add_dev_flags.
  destruct (environ !! "EXTRA_CMAKE_ARGS"); apply lookup_insert_eq.
Qed.

Lemma add_dev_flags_other (environ : environment) (k : string) :
  k <> "EXTRA_CMAKE_ARGS" -> add_dev_flags environ !! k = environ !! k.
Proof.
  intros Hk. unfold add_dev_flags.
  destruct (environ !! "EXTRA_CMAKE_ARGS"); apply lookup_insert_ne; congruence.
Qed.

(** C7, as the code has it: two invocations in a row, from any
    environment, run the same argument vector: the flags of the selected
    completers in the order of the registry, then the msvc, coverage and
    quiet flags. One piece of state passes from the first invocation to
    the second: the environment variable [EXTRA_CMAKE_ARGS], which every
    invocation extends and hands to the build; nothing else of the
    environment changes. *)
Theorem build_command_deterministic (args : Namespace)
    (selected : list string) (environ : environment) :
  skip_build args = false -> completers args = Some selected ->
  exists (build_cmd : list string) (environ1 environ2 : environment)
         (v1 : string),
    BuildYcmdLibs sys_executable DIR_OF_THIS_SCRIPT p_join registry args
      environ =
      Return (environ1, Some {| argv := build_cmd; env := environ1 |}) /\
    BuildYcmdLibs sys_executable DIR_OF_THIS_SCRIPT p_join registry args
      environ1 =
      Return (environ2, Some {| argv := build_cmd; env := environ2 |}) /\
    build_cmd =
      [ sys_executable; p_join DIR_OF_THIS_SCRIPT "build.py"; "--core-tests" ]
      ++ selected_build_flags registry selected
      ++ (if Z.eqb (msvc args) 0 then []
          else [ "--msvc"; str_of_int (msvc args) ])
      ++ (if coverage args
          then [ "--enable-coverage"; "--build-dir"; ".build" ] else [])
      ++ (if quiet args then [ "--quiet" ] else []) /\
    environ1 !! "EXTRA_CMAKE_ARGS" = Some v1 /\
    environ2 !! "EXTRA_CMAKE_ARGS" = Some (v1 +:+ " -DUSE_DEV_FLAGS=ON") /\
    (forall k, k <> "EXTRA_CMAKE_ARGS" ->
       environ1 !! k = environ !! k /\ environ2 !! k = environ !! k).
Proof.
  intros Hskip Hsel.
  eexists _, (add_dev_flags environ), (add_dev_flags (add_dev_flags environ)), _.
  split; [apply BuildYcmdLibs_eq; eassumption|].
  split; [apply BuildYcmdLibs_eq; eassumption|].
  split; [reflexivity|].
  split; [apply add_dev_flags_lookup|].
  split.
  - rewrite (add_dev_flags_lookup (add_dev_flags environ)).
    rewrite add_dev_flags_lookup. reflexivity.
  - intros k Hk. rewrite !add_dev_flags_other by exact Hk. split; reflexivity.
Qed.

(** With [--skip-build] nothing is run and the environment stays. *)
Lemma BuildYcmdLibs_skip (args : Namespace) (environ : environment) :
  skip_build args = true ->
  BuildYcmdLibs sys_executable DIR_OF_THIS_SCRIPT p_join registry args environ =
  Return (environ, None).
Proof. intros H. unfold BuildYcmdLibs. rewrite H. reflexivity. Qed.

End ScriptFacts.

(** C7, at [--completers go] with an empty environment. *)
Lemma build_command_deterministic_sample :
  exists (build_cmd : list string) (environ1 environ2 : environment),
    BuildYcmdLibs Samples.exe Samples.script_dir Samples.posix_join COMPLETERS
      Samples.only_go ∅ =
      Return (environ1, Some {| argv := build_cmd; env := environ1 |}) /\
    BuildYcmdLibs Samples.exe Samples.script_dir Samples.posix_join COMPLETERS
      Samples.only_go environ1 =
      Return (environ2, Some {| argv := build_cmd; env := environ2 |}) /\
    build_cmd =
      [ "python3"; "/ycmd/build.py"; "--core-tests"; "--go-completer";
        "--msvc"; "16" ].
Proof.
  destruct (build_command_deterministic Samples.exe Samples.script_dir
              Samples.posix_join COMPLETERS Samples.only_go [ "go" ] ∅
              eq_refl eq_refl)
    as (build_cmd & environ1 & environ2 & v1 & H1 & H2 & Hcmd & _).
  exists build_cmd, environ1, environ2.
  split; [exact H1|]. split; [exact H2|]. rewrite Hcmd. reflexivity.
Defined.

(** C7, counterexample: of two invocations in a row with an empty
    environment at the start, the first hands the build
    [EXTRA_CMAKE_ARGS=-DUSE_DEV_FLAGS=ON] and the second hands it the
    value the first left, extended once more. *)
Lemma build_environment_carried :
  exists (c1 c2 : process_call) (environ1 environ2 : environment),
    BuildYcmdLibs Samples.exe Samples.script_dir Samples.posix_join COMPLETERS
      Samples.only_go ∅ = Return (environ1, Some c1) /\
    BuildYcmdLibs Samples.exe Samples.script_dir Samples.posix_join COMPLETERS
      Samples.only_go environ1 = Return (environ2, Some c2) /\
    env c1 !! "EXTRA_CMAKE_ARGS" = Some "-DUSE_DEV_FLAGS=ON" /\
    env c2 !! "EXTRA_CMAKE_ARGS" =
      Some "-DUSE_DEV_FLAGS=ON -DUSE_DEV_FLAGS=ON" /\
    c1 <> c2 /\ environ1 <> ∅.
Proof.
  eexists _, _, _, _.
  split; [apply (BuildYcmdLibs_eq _ _ _ _ _ [ "go" ]); reflexivity|].
  split; [apply (BuildYcmdLibs_eq _ _ _ _ _ [ "go" ]); reflexivity|].
  split; [reflexivity|]. split; [reflexivity|]. split.
  - intros Heq. apply (f_equal (fun c => env c !! "EXTRA_CMAKE_ARGS")) in Heq.
    vm_compute in Heq. discriminate Heq.
  - intros Heq. apply (f_equal (fun e => e !! "EXTRA_CMAKE_ARGS")) in Heq.
    vm_compute in Heq. discriminate Heq.
Qed.

(** *** PytestTests *)

Lemma elem_of_excluded_test_flags (registry : dict completer_spec)
    (selected : list string) (f : string) :
  f ∈ excluded_test_flags registry selected <->
  exists key spec, (key, spec) ∈ registry /\ (key ∉ selected) /\ f ∈ test spec.
Proof.
  unfold excluded_test_flags. rewrite list_elem_of_In, in_flat_map. split.
  - intros ([key spec] & Hin & Hf). simpl in Hf.
    destruct (bool_decide (key ∈ selected)) eqn:Hsel; [inversion Hf|].
    exists key, spec. apply bool_decide_eq_false in Hsel.
    apply list_elem_of_In in Hin. apply list_elem_of_In in Hf. tauto.
  - intros (key & spec & Hin & Hsel & Hf). exists (key, spec). simpl.
    rewrite bool_decide_eq_false_2 by exact Hsel.
    apply list_elem_of_In in Hin. apply list_elem_of_In in Hf. tauto.
Qed.

(** No test flag of the registry belongs to two completers. *)
Lemma test_flags_owner (key key' : string) (spec spec' : completer_spec)
    (f : string) :
  (key, spec) ∈ COMPLETERS -> f ∈ test spec ->
  (key', spec') ∈ COMPLETERS -> f ∈ test spec' -> key' = key.
Proof.
  unfold COMPLETERS. rewrite !list_elem_of_In. simpl.
  intros H Hf H' Hf'.
  repeat (destruct H as [H|H]; [injection H as <- <-|]); [..|destruct H];
    simpl in Hf; rewrite ?elem_of_cons, ?elem_of_nil in Hf;
    repeat (destruct Hf as [Hf|Hf]); try contradiction; subst f;
    repeat (destruct H' as [H'|H']; [injection H' as <- <-|]);
    try destruct H';
    simpl in Hf'; rewrite ?elem_of_cons, ?elem_of_nil in Hf';
    repeat (destruct Hf' as [Hf'|Hf']);
    try contradiction; try discriminate; reflexivity.
Qed.

(** The coverage flags are test flags of no completer. *)
Lemma coverage_flags_not_test_flags (key : string) (spec : completer_spec)
    (f : string) :
  (key, spec) ∈ COMPLETERS -> f ∈ test spec ->
  f ∉ [ "--ignore=ycmd/tests/python/testdata"; "--cov=ycmd" ].
Proof.
  unfold COMPLETERS. rewrite !list_elem_of_In. simpl.
  intros H Hf Hcov.
  repeat (destruct H as [H|H]; [injection H as <- <-|]); [..|destruct H];
    simpl in Hf; rewrite ?elem_of_cons, ?elem_of_nil in Hf;
    repeat (destruct Hf as [Hf|Hf]); try contradiction; subst f;
    repeat (destruct Hcov as [Hcov|Hcov]); try contradiction;
    discriminate.
Qed.

(** C6: the flags [PytestTests] appends after the content of
    [BASE_PYTEST_ARGS] and before the coverage flags and the test paths
    are the test flags of the completers of the registry that are not
    selected, and no others; so a test flag of a completer is among them
    exactly when the completer is not selected, and it is in the whole
    argument list on that condition too, unless the list held it before
    or the caller passed it. *)
Theorem test_flags_complement (DIR_OF_THIS_SCRIPT : string)
    (p_join : string -> string -> string) (parsed_args : Namespace)
    (selected extra_pytests_args base : list string) :
  completers parsed_args = Some selected ->
  let paths :=
    match extra_pytests_args with
    | [] => [ p_join DIR_OF_THIS_SCRIPT "ycmd" ]
    | _ => extra_pytests_args
    end in
  exists excluded pytests_args : list string,
    pytests_args_of DIR_OF_THIS_SCRIPT p_join COMPLETERS parsed_args
      extra_pytests_args base = Return pytests_args /\
    pytests_args =
      base ++ excluded ++
      (if coverage parsed_args
       then [ "--ignore=ycmd/tests/python/testdata"; "--cov=ycmd" ]
       else []) ++ paths /\
    excluded = excluded_test_flags COMPLETERS selected /\
    (forall f, f ∈ excluded <->
       exists key spec,
         (key, spec) ∈ COMPLETERS /\ (key ∉ selected) /\ f ∈ test spec) /\
    (forall key spec f, (key, spec) ∈ COMPLETERS -> f ∈ test spec ->
       (f ∈ excluded <-> key ∉ selected)) /\
    (forall key spec f, (key, spec) ∈ COMPLETERS -> f ∈ test spec ->
       f ∉ base -> f ∉ paths ->
       (f ∈ pytests_args <-> key ∉ selected)).
Proof.
  intros Hsel paths.
  assert (Howner : forall key spec f,
            (key, spec) ∈ COMPLETERS -> f ∈ test spec ->
            (f ∈ excluded_test_flags COMPLETERS selected <-> key ∉ selected)).
  { intros key spec f Hin Hf. rewrite elem_of_excluded_test_flags. split.
    - intros (key' & spec' & Hin' & Hsel' & Hf').
      rewrite <- (test_flags_owner key key' spec spec' f); assumption.
    - intros Hsel'. exists key, spec. tauto. }
  exists (excluded_test_flags COMPLETERS selected). eexists.
  split; [|split; [reflexivity|split; [reflexivity|split; [|split]]]].
  - unfold pytests_args_of. rewrite Hsel, extend_test_flags_eq. simpl.
    subst paths.
    destruct (coverage parsed_args), extra_pytests_args; simpl;
      rewrite <- ?app_assoc, ?app_nil_r; reflexivity.
  - intros f. apply elem_of_excluded_test_flags.
  - exact Howner.
  - intros key spec f Hin Hf Hbase Hpaths.
    rewrite <- (Howner key spec f Hin Hf). rewrite !elem_of_app.
    pose proof (coverage_flags_not_test_flags key spec f Hin Hf) as Hcov.
    destruct (coverage parsed_args).
    + tauto.
    + rewrite elem_of_nil. tauto.
Qed.

(** C6, at [--completers go] with no test path given, from the content
    [BASE_PYTEST_ARGS] has when the module is loaded. *)
Lemma test_flags_complement_sample :
  pytests_args_of Samples.script_dir Samples.posix_join COMPLETERS
    Samples.only_go [] BASE_PYTEST_ARGS_init =
  Return [ "-v"; "--color=yes";
           "--ignore=ycmd/tests/clang"; "--ignore=ycmd/tests/cs";
           "--ignore=ycmd/tests/tern"; "--ignore=ycmd/tests/javascript";
           "--ignore=ycmd/tests/typescript"; "--ignore=ycmd/tests/python";
           "--ignore=ycmd/tests/java"; "--ignore=ycmd/tests/clangd";
           "--ignore=ycmd/tests/rust"; "/ycmd/ycmd" ].
Proof.
  destruct (test_flags_complement Samples.script_dir Samples.posix_join
              Samples.only_go [ "go" ] [] BASE_PYTEST_ARGS_init eq_refl)
    as (excluded & pytests_args & Hargs & Hall & Hexcluded & _).
  rewrite Hargs, Hall, Hexcluded. reflexivity.
Defined.

(** Off Windows, [PytestTests] runs pytest on the argument list with the
    clang library directory in [LD_LIBRARY_PATH], and leaves [os.environ]
    as it was. *)
Lemma PytestTests_posix (sys_executable DIR_OF_THIS_SCRIPT : string)
    (p_join : string -> string -> string) (registry : dict completer_spec)
    (parsed_args : Namespace) (extra_pytests_args base : list string)
    (environ : environment) (pytests_args : list string) :
  pytests_args_of DIR_OF_THIS_SCRIPT p_join registry parsed_args
    extra_pytests_args base = Return pytests_args ->
  PytestTests sys_executable DIR_OF_THIS_SCRIPT p_join false registry
    parsed_args extra_pytests_args environ base =
  Return
    (pytests_args,
     {| argv := [ sys_executable; "-m"; "pytest" ] ++ pytests_args;
        env := <[ "LD_LIBRARY_PATH" := LIBCLANG_DIR DIR_OF_THIS_SCRIPT p_join ]>
                 (if no_retry parsed_args
                  then <[ "YCM_TEST_NO_RETRY" := "1" ]> environ
                  else environ) |}).
Proof.
  intros Hargs. unfold PytestTests. rewrite Hargs. reflexivity.
Qed.

(** *** Aliases of the registry *)

(** In the registry, an alias belongs to one completer only and is the
    name of none. *)
Theorem aliases_unambiguous (key : string) (spec : completer_spec)
    (als : list string) (a : string) :
  (key, spec) ∈ COMPLETERS -> aliases spec = Some als -> a ∈ als ->
  (a ∉ keys COMPLETERS) /\
  (forall key' spec' als',
     (key', spec') ∈ COMPLETERS -> aliases spec' = Some als' -> a ∈ als' ->
     key' = key).
Proof.
  unfold COMPLETERS. rewrite !list_elem_of_In. simpl.
  intros H Hals Ha.
  repeat (destruct H as [H|H]; [injection H as <- <-|]); [..|destruct H];
    simpl in Hals; try discriminate Hals; injection Hals as <-;
    rewrite ?elem_of_cons, ?elem_of_nil in Ha;
    repeat (destruct Ha as [Ha|Ha]); try contradiction; subst a;
    (split;
     [ intros Hk;
       repeat (destruct Hk as [Hk|Hk]); try contradiction; discriminate
     | intros key' spec' als'; rewrite !list_elem_of_In; simpl;
       intros H' Hals' Ha';
       repeat (destruct H' as [H'|H']; [injection H' as <- <-|]);
       try destruct H';
       simpl in Hals'; try discriminate Hals'; injection Hals' as <-;
       rewrite ?elem_of_cons, ?elem_of_nil in Ha';
       repeat (destruct Ha' as [Ha'|Ha']);
       try contradiction; try discriminate; reflexivity ]).
Qed.

(** At the alias [clang] of [cfamily]. *)
Lemma aliases_unambiguous_sample :
  ("clang" ∉ keys COMPLETERS) /\
  (forall key' spec' als',
     (key', spec') ∈ COMPLETERS -> aliases spec' = Some als' ->
     "clang" ∈ als' -> key' = "cfamily").
Proof.
  apply (aliases_unambiguous "cfamily"
           {| build := [ "--clang-completer" ];
              test := [ "--ignore=ycmd/tests/clang" ];
              aliases := Some [ "c"; "cpp"; "c++"; "objc"; "clang" ] |}
           [ "c"; "cpp"; "c++"; "objc"; "clang" ] "clang").
  - unfold COMPLETERS. left.
  - reflexivity.
  - rewrite !elem_of_cons. tauto.
Defined.

End RunTestsFacts.

(** ** The stoppable server *)

Module WsgiServerFacts.

Import WsgiServer.

Section ServerFacts.
Variable waitress : Type.
Variable channel : Type.
Variable socket_map : waitress -> list (Z * channel).
Variable task_dispatcher_shutdown : waitress -> waitress * result unit.
Variable channel_close : channel -> waitress -> waitress * result unit.
Variable run : server waitress -> server waitress * result unit.

Lemma state_of_Running (self : server waitress) (shutdown_returned : bool) :
  state_of self shutdown_returned = Running <-> shutdown_requested self = false.
Proof.
  unfold state_of. destruct (shutdown_requested self), shutdown_returned;
    split; congruence.
Qed.

Lemma state_of_requested (self : server waitress) (shutdown_returned : bool) :
  state_of self shutdown_returned <> Running <-> shutdown_requested self = true.
Proof.
  unfold state_of. destruct (shutdown_requested self), shutdown_returned;
    split; congruence.
Qed.

(** C8: when the serve loop ends with [select.error], that is with an
    [OSError] of any class, [Run] raises it again if no shutdown is
    requested at that moment, and returns without raising if one is,
    whether [Shutdown] has returned by then or not. *)
Theorem Run_interrupt (stdin_attached : bool) (self self' : server waitress)
    (cls : string) (shutdown_returned : bool) :
  run self = (self', Raise (OSError cls)) ->
  (state_of self' shutdown_returned = Running ->
     (Run waitress run stdin_attached self).2 = Raise (OSError cls)) /\
  (state_of self' shutdown_returned = ShutdownRequested ->
     (Run waitress run stdin_attached self).2 = Return tt) /\
  (state_of self' shutdown_returned = Stopped ->
     (Run waitress run stdin_attached self).2 = Return tt).
Proof.
  intros Hrun. unfold Run. rewrite Hrun.
  split; [|split]; intros Hstate.
  - apply state_of_Running in Hstate. rewrite Hstate. reflexivity.
  - assert (Hset : shutdown_requested self' = true)
      by (apply (state_of_requested _ shutdown_returned); congruence).
    rewrite Hset. reflexivity.
  - assert (Hset : shutdown_requested self' = true)
      by (apply (state_of_requested _ shutdown_returned); congruence).
    rewrite Hset. reflexivity.
Qed.

(** An exception of the serve loop that is no [OSError] passes through,
    and so does a normal return, whether a shutdown is requested or not. *)
Theorem Run_other_outcome (stdin_attached : bool)
    (self self' : server waitress) (outcome : result unit) :
  run self = (self', outcome) ->
  (forall cls, outcome <> Raise (OSError cls)) ->
  (Run waitress run stdin_attached self).2 = outcome.
Proof.
  intros Hrun Hne. unfold Run. rewrite Hrun.
  destruct outcome as [[]|[]]; try reflexivity.
  exfalso. eapply Hne. reflexivity.
Qed.

Lemma Run_notice (stdin_attached : bool) (self : server waitress) :
  (Run waitress run stdin_attached self).1.1 =
  if stdin_attached then [ serving_notice waitress self ] else [].
Proof.
  unfold Run. destruct (run self) as [self' [[]|[]]]; try reflexivity.
  destruct (shutdown_requested self'); reflexivity.
Qed.

(** The loop returns exactly when every [close] returns, and then each
    channel of the copy has been closed once, in the copy's order. *)
Lemma close_all_returns (snapshot : list channel) (w w' : waitress) :
  close_all waitress channel channel_close snapshot w = (w', Return tt) <->
  closes_return waitress channel channel_close snapshot w /\
  w' = closed waitress channel channel_close snapshot w.
Proof.
  revert w. induction snapshot as [|c rest IH]; intros w; simpl.
  - unfold closed. simpl. split; [intros [= <-]; auto | intros [_ ->]; auto].
  - unfold closed. simpl. fold (closed waitress channel channel_close rest).
    destruct (channel_close c w) as [w1 [[]|e]]; simpl.
    + rewrite IH. tauto.
    + split; [discriminate | intros [[Hr _] _]; discriminate].
Qed.

(** The loop raises what the first failing [close] raises, after the
    channels before it have been closed; the channels after it are not
    touched. *)
Lemma close_all_raises (snapshot : list channel) (w w' : waitress) (e : exn) :
  close_all waitress channel channel_close snapshot w = (w', Raise e) ->
  exists before c rest,
    snapshot = before ++ c :: rest /\
    closes_return waitress channel channel_close before w /\
    channel_close c (closed waitress channel channel_close before w) =
      (w', Raise e).
Proof.
  revert w. induction snapshot as [|c rest IH]; intros w; simpl;
    [discriminate|].
  destruct (channel_close c w) as [w1 [[]|e1]] eqn:Hc; simpl.
  - intros Hrest. destruct (IH _ Hrest) as (before & c' & rest' & -> & Hb & Hc').
    exists (c :: before), c', rest'. split; [reflexivity|].
    unfold closed in *. simpl. rewrite Hc. simpl. auto.
  - intros [= <- <-]. exists [], c, rest. simpl. auto.
Qed.

(** C9: [Shutdown] sets [shutdown_requested] first: the flag is set
    also when the dispatcher raises, and then no channel is touched. When
    the dispatcher has returned, [Shutdown] copies the channels of the
    socket map and closes the channels of the copy in the copy's order,
    whatever the closing does to the socket map itself. When every
    [close] returns, each channel of the copy has been closed once,
    [Shutdown] returns, and the server is [Stopped]. When one raises,
    that ends [Shutdown] with the later channels still open, and the
    server stays [ShutdownRequested]. *)
Theorem Shutdown_order (self : server waitress) :
  let after := Shutdown waitress channel socket_map task_dispatcher_shutdown
                 channel_close self in
  let halt := task_dispatcher_shutdown (base self) in
  let snapshot := map snd (socket_map halt.1) in
  (shutdown_requested after.1 = true /\
   effective_host after.1 = effective_host self /\
   effective_port after.1 = effective_port self) /\
  (forall e, halt.2 = Raise e ->
     after.2 = Raise e /\ base after.1 = halt.1 /\
     state_of after.1 (returned after.2) = ShutdownRequested) /\
  (returned halt.2 = true ->
     closes_return waitress channel channel_close snapshot halt.1 ->
     after.2 = Return tt /\
     base after.1 = closed waitress channel channel_close snapshot halt.1 /\
     state_of after.1 (returned after.2) = Stopped) /\
  (returned halt.2 = true -> forall e, after.2 = Raise e ->
     state_of after.1 (returned after.2) = ShutdownRequested /\
     exists before c rest,
       snapshot = before ++ c :: rest /\
       closes_return waitress channel channel_close before halt.1 /\
       channel_close c (closed waitress channel channel_close before halt.1) =
         (base after.1, Raise e)).
Proof.
  intros after halt snapshot. subst after halt snapshot. unfold Shutdown.
  simpl. destruct (task_dispatcher_shutdown (base self)) as [w [[]|e0]];
    simpl.
  - destruct (close_all waitress channel channel_close
                (map snd (socket_map w)) w) as [w' r] eqn:Hloop.
    simpl. split; [auto|]. split; [discriminate|]. split.
    + intros _ Hall.
      assert (Hret : close_all waitress channel channel_close
                       (map snd (socket_map w)) w =
                     (closed waitress channel channel_close
                        (map snd (socket_map w)) w, Return tt))
        by (apply close_all_returns; auto).
      rewrite Hloop in Hret. injection Hret as -> ->. auto.
    + intros _ e ->. split; [reflexivity|].
      apply close_all_raises. exact Hloop.
  - split; [auto|]. split; [intros e [= <-]; auto|].
    split; discriminate.
Qed.

End ServerFacts.

(** C8, at a server whose loop is interrupted while it runs, and at one
    whose loop ends with a [BrokenPipeError] after [Shutdown]. *)
Lemma Run_interrupt_samples :
  (Run Samples.toy_waitress Samples.run_interrupted true
     (Samples.toy_server false)).2 = Raise (OSError "OSError") /\
  (Run Samples.toy_waitress Samples.run_shut_down true
     (Samples.toy_server false)).2 = Return tt.
Proof.
  split.
  - apply (proj1 (Run_interrupt Samples.toy_waitress Samples.run_interrupted
                    true (Samples.toy_server false) (Samples.toy_server false)
                    "OSError" false eq_refl)).
    reflexivity.
  - apply (proj1 (proj2 (Run_interrupt Samples.toy_waitress
                           Samples.run_shut_down true
                           (Samples.toy_server false)
                           (Samples.toy_shutdown (Samples.toy_server false)).1
                           "BrokenPipeError" false eq_refl))).
    reflexivity.
Defined.

(** At a serve loop that [KeyboardInterrupt] ends. *)
Lemma Run_other_outcome_sample :
  (Run Samples.toy_waitress Samples.run_failed false
     (Samples.toy_server false)).2 = Raise (OtherError "KeyboardInterrupt").
Proof.
  apply (Run_other_outcome Samples.toy_waitress Samples.run_failed false
           (Samples.toy_server false) (Samples.toy_server false)).
  - reflexivity.
  - discriminate.
Defined.

(** C9, at the sample server with two channels, which [Shutdown] leaves
    [Stopped] with both closed, and at the one whose second channel
    cannot be closed, where the third stays open. *)
Lemma Shutdown_order_samples :
  (Samples.toy_shutdown (Samples.toy_server false)).2 = Return tt /\
  base (Samples.toy_shutdown (Samples.toy_server false)).1 = [] /\
  state_of (Samples.toy_shutdown (Samples.toy_server false)).1 true = Stopped /\
  (Samples.toy_shutdown Samples.toy_server_stuck).2 = Raise (OSError "OSError") /\
  base (Samples.toy_shutdown Samples.toy_server_stuck).1 = [ (5%Z, 50%nat) ].
Proof.
  pose proof (Shutdown_order Samples.toy_waitress nat (fun w => w)
                Samples.toy_dispatcher_shutdown Samples.toy_close
                (Samples.toy_server false)) as (_ & _ & Hdone & _).
  destruct Hdone as (Hret & Hbase & Hstate).
  { reflexivity. }
  { simpl. auto. }
  unfold Samples.toy_shutdown.
  split; [exact Hret|]. split; [rewrite Hbase; vm_compute; reflexivity|].
  split; [rewrite Hret in Hstate; exact Hstate|].
  split; vm_compute; reflexivity.
Defined.

End WsgiServerFacts.

(** ** The functions that act on the system *)

Module DriverFacts.

Import RunTestsFacts.
Import Driver.

(** *** Splitting and joining on the path separator *)

Lemma split_not_nil (sep : Ascii.ascii) (s : string) : split sep s <> [].
Proof.
  destruct s as [|c s]; simpl; [discriminate|].
  destruct (Ascii.eqb c sep); [discriminate|].
  destruct (split sep s); discriminate.
Qed.

Lemma append_cons (c : Ascii.ascii) (a b : string) :
  String c a +:+ b = String c (a +:+ b).
Proof. reflexivity. Qed.

Lemma append_nil (b : string) : EmptyString +:+ b = b.
Proof. reflexivity. Qed.

Lemma string_app_empty_r (s : string) : s +:+ EmptyString = s.
Proof.
  induction s as [|c s IH]; [reflexivity|]. rewrite append_cons, IH.
  reflexivity.
Qed.

Lemma string_app_assoc (a b c : string) : (a +:+ b) +:+ c = a +:+ b +:+ c.
Proof.
  induction a as [|x a IH]; [reflexivity|]. rewrite !append_cons, IH.
  reflexivity.
Qed.

(** Joining what [split] gives restores the string. *)
Lemma join_split (sep : Ascii.ascii) (s : string) :
  join (String sep EmptyString) (split sep s) = s.
Proof.
  induction s as [|c s IH]; simpl; [reflexivity|].
  pose proof (split_not_nil sep s) as Hne.
  destruct (Ascii.eqb c sep) eqn:E.
  - apply Ascii.eqb_eq in E. subst c.
    destruct (split sep s) as [|w ws]; [contradiction|].
    simpl in *. rewrite append_nil, append_cons, append_nil, IH. reflexivity.
  - destruct (split sep s) as [|w ws]; [contradiction|].
    destruct ws as [|w' ws]; simpl in *; rewrite <- IH; reflexivity.
Qed.

Lemma split_no_sep (sep : Ascii.ascii) (w : string) :
  has_char sep w = false -> split sep w = [ w ].
Proof.
  induction w as [|c w IH]; simpl; [reflexivity|]. intros H.
  apply orb_false_iff in H. destruct H as [Hc Hw].
  rewrite Hc, (IH Hw). reflexivity.
Qed.

Lemma split_app_sep (sep : Ascii.ascii) (w rest : string) :
  has_char sep w = false ->
  split sep (w +:+ String sep rest) = w :: split sep rest.
Proof.
  induction w as [|c w IH]; intros H.
  - rewrite append_nil. simpl. rewrite Ascii.eqb_refl. reflexivity.
  - simpl in H. apply orb_false_iff in H. destruct H as [Hc Hw].
    rewrite append_cons. simpl. rewrite Hc, (IH Hw). reflexivity.
Qed.

(** Splitting a joined list of words without the separator restores the
    list. *)
Lemma split_join (sep : Ascii.ascii) (l : list string) :
  l <> [] -> Forall (fun w => has_char sep w = false) l ->
  split sep (join (String sep EmptyString) l) = l.
Proof.
  induction l as [|w l IH]; intros Hne Hall; [contradiction|].
  inversion Hall as [|? ? Hw Hl]; subst.
  destruct l as [|w' l].
  - simpl. apply split_no_sep. exact Hw.
  - change (join (String sep EmptyString) (w :: w' :: l))
      with (w +:+ String sep EmptyString +:+
            join (String sep EmptyString) (w' :: l)).
    rewrite append_cons, append_nil.
    rewrite split_app_sep by exact Hw.
    rewrite IH; [reflexivity | discriminate | exact Hl].
Qed.

(** *** FindExecutable *)

Section ProcessFacts.
Context `{Platform} {OS : Type} `{System OS}.
Variable registry : dict completer_spec.

Lemma search_paths_Some (o : OS) (paths : list string) (name path : string) :
  search_paths o paths name = Some path <->
  exists before dir after,
    paths = before ++ dir :: after /\
    (forall d, d ∈ before -> isfile (p_join d name) o = false) /\
    isfile (p_join dir name) o = true /\
    path = p_join dir name.
Proof.
  induction paths as [|d paths IH]; simpl.
  - split; [discriminate|]. intros (before & dir & after & Heq & _).
    destruct before; discriminate.
  - destruct (isfile (p_join d name) o) eqn:Hd.
    + split.
      * intros [= <-]. exists [], d, paths. repeat split; try assumption.
        intros d' Hd'. inversion Hd'.
      * intros (before & dir & after & Heq & Hbefore & Hdir & ->).
        destruct before as [|b before]; simpl in Heq.
        -- injection Heq as <- <-. reflexivity.
        -- injection Heq as <- ->. rewrite Hbefore in Hd by left. discriminate.
    + rewrite IH. split.
      * intros (before & dir & after & -> & Hbefore & Hdir & ->).
        exists (d :: before), dir, after. repeat split; try assumption.
        intros d' Hd'. apply elem_of_cons in Hd'. destruct Hd' as [->|Hd'];
          [exact Hd | apply Hbefore; exact Hd'].
      * intros (before & dir & after & Heq & Hbefore & Hdir & ->).
        destruct before as [|b before]; simpl in Heq.
        -- injection Heq as <- <-. congruence.
        -- injection Heq as <- ->. exists before, dir, after.
           repeat split; try assumption.
           intros d' Hd'. apply Hbefore. right. exact Hd'.
Qed.

Lemma search_paths_None (o : OS) (paths : list string) (name : string) :
  search_paths o paths name = None <->
  forall d, d ∈ paths -> isfile (p_join d name) o = false.
Proof.
  induction paths as [|d paths IH]; simpl.
  - split; [intros _ d Hd; inversion Hd | reflexivity].
  - destruct (isfile (p_join d name) o) eqn:Hd.
    + split; [discriminate|]. intros Hall. rewrite Hall in Hd by left.
      discriminate.
    + rewrite IH. split.
      * intros Hall d' Hd'. apply elem_of_cons in Hd'.
        destruct Hd' as [->|Hd']; [exact Hd | apply Hall; exact Hd'].
      * intros Hall d' Hd'. apply Hall. right. exact Hd'.
Qed.

Lemma search_extensions_Some (o : OS) (paths : list string)
    (executable : string) (extensions : list string) (path : string) :
  search_extensions o paths executable extensions = Some path <->
  exists before ext after,
    extensions = before ++ ext :: after /\
    (forall ext', ext' ∈ before -> no_hit o paths (executable +:+ ext')) /\
    first_hit o paths (executable +:+ ext) path.
Proof.
  induction extensions as [|e extensions IH]; simpl.
  - split; [discriminate|]. intros (before & ext & after & Heq & _).
    destruct before; discriminate.
  - destruct (isfile (executable +:+ e) o) eqn:He; simpl.
    + split.
      * intros [= <-]. exists [], e, extensions.
        split; [reflexivity|]. split; [intros ext' Hin; inversion Hin|].
        left. split; [exact He | reflexivity].
      * intros (before & ext & after & Heq & Hbefore & Hhit).
        destruct before as [|b before]; simpl in Heq.
        -- injection Heq as <- <-.
           destruct Hhit as [[_ ->]|[Hno _]]; [reflexivity | congruence].
        -- injection Heq as <- ->.
           destruct (Hbefore e) as [Hno _]; [left | congruence].
    + destruct (search_paths o paths (executable +:+ e)) as [found|] eqn:Hs.
      * apply search_paths_Some in Hs. split.
        -- intros [= <-]. exists [], e, extensions.
           split; [reflexivity|]. split; [intros ext' Hin; inversion Hin|].
           right. split; [exact He | exact Hs].
        -- intros (before & ext & after & Heq & Hbefore & Hhit).
           destruct before as [|b before]; simpl in Heq.
           ++ injection Heq as <- <-.
              destruct Hhit as [[Hyes _]|[_ Hhit]]; [congruence|].
              apply search_paths_Some in Hhit. apply search_paths_Some in Hs.
              congruence.
           ++ injection Heq as <- ->.
              destruct (Hbefore e) as [_ Hno]; [left|].
              apply search_paths_None in Hno. apply search_paths_Some in Hs.
              congruence.
      * rewrite IH.
        pose proof (proj1 (search_paths_None _ _ _) Hs) as Hnone.
        split.
        -- intros (before & ext & after & -> & Hbefore & Hhit).
           exists (e :: before), ext, after.
           split; [reflexivity|]. split; [|exact Hhit].
           intros ext' Hin. apply elem_of_cons in Hin.
           destruct Hin as [->|Hin]; [split; assumption | apply Hbefore; exact Hin].
        -- intros (before & ext & after & Heq & Hbefore & Hhit).
           destruct before as [|b before]; simpl in Heq.
           ++ injection Heq as <- <-.
              destruct Hhit as [[Hyes _]|[_ Hhit]]; [congruence|].
              apply search_paths_Some in Hhit. congruence.
           ++ injection Heq as <- ->. exists before, ext, after.
              split; [reflexivity|]. split; [|exact Hhit].
              intros ext' Hin. apply Hbefore. right. exact Hin.
Qed.

Lemma search_extensions_None (o : OS) (paths : list string)
    (executable : string) (extensions : list string) :
  search_extensions o paths executable extensions = None <->
  forall ext, ext ∈ extensions -> no_hit o paths (executable +:+ ext).
Proof.
  induction extensions as [|e extensions IH]; simpl.
  - split; [intros _ ext Hin; inversion Hin | reflexivity].
  - destruct (isfile (executable +:+ e) o) eqn:He; simpl.
    + split; [discriminate|]. intros Hall.
      destruct (Hall e) as [Hno _]; [left | congruence].
    + destruct (search_paths o paths (executable +:+ e)) as [found|] eqn:Hs.
      * split; [discriminate|]. intros Hall.
        destruct (Hall e) as [_ Hno]; [left|].
        apply search_paths_None in Hno. congruence.
      * rewrite IH.
        pose proof (proj1 (search_paths_None _ _ _) Hs) as Hnone. split.
        -- intros Hall ext Hin. apply elem_of_cons in Hin.
           destruct Hin as [->|Hin]; [split; assumption | apply Hall; exact Hin].
        -- intros Hall ext Hin. apply Hall. right. exact Hin.
Qed.

Lemma search_extensions_isfile (o : OS) (paths : list string)
    (executable : string) (extensions : list string) (path : string) :
  search_extensions o paths executable extensions = Some path ->
  isfile path o = true.
Proof.
  intros Hsearch. apply search_extensions_Some in Hsearch.
  destruct Hsearch as (before & ext & after & _ & _ & Hhit).
  destruct Hhit as [[Hfile ->]|[_ (b & dir & a & _ & _ & Hfile & ->)]];
    exact Hfile.
Qed.

Lemma FindExecutable_eq (executable PATH : string) (p : process OS) :
  environ p !! "PATH" = Some PATH ->
  FindExecutable executable p =
  (p, Done (search_extensions (os p) (split pathsep PATH) executable
              (executable_extensions executable))).
Proof.
  intros HPATH. unfold FindExecutable, mbind, M_bind, get_environ.
  rewrite HPATH. reflexivity.
Qed.

(** [FindExecutable], when [PATH] is set, changes nothing and returns a
    path only if it is a file: the name with the first extension under
    which anything is found, taken as it is if that is a file, and
    otherwise under the first directory of [PATH] that has it. It returns
    [None] only if the name is found under no extension, neither as it is
    nor in a directory of [PATH]. *)
Theorem FindExecutable_spec (executable PATH : string) (p : process OS) :
  environ p !! "PATH" = Some PATH ->
  exists found,
    FindExecutable executable p = (p, Done found) /\
    match found with
    | Some path =>
        isfile path (os p) = true /\
        exists before ext after,
          executable_extensions executable = before ++ ext :: after /\
          (forall ext', ext' ∈ before ->
             no_hit (os p) (split pathsep PATH) (executable +:+ ext')) /\
          first_hit (os p) (split pathsep PATH) (executable +:+ ext) path
    | None =>
        forall ext, ext ∈ executable_extensions executable ->
          no_hit (os p) (split pathsep PATH) (executable +:+ ext)
    end.
Proof.
  intros HPATH. eexists. split; [apply FindExecutable_eq; exact HPATH|].
  destruct (search_extensions (os p) (split pathsep PATH) executable
              (executable_extensions executable)) as [path|] eqn:Hsearch.
  - split; [eapply search_extensions_isfile; exact Hsearch|].
    apply search_extensions_Some. exact Hsearch.
  - apply search_extensions_None. exact Hsearch.
Qed.

Lemma FindExecutable_no_PATH (executable : string) (p : process OS) :
  environ p !! "PATH" = None ->
  FindExecutable executable p = (p, Fail (Exception (KeyError "PATH"))).
Proof.
  intros HPATH. unfold FindExecutable, mbind, M_bind, get_environ.
  rewrite HPATH. reflexivity.
Qed.

(** Off Windows, with [PATH] the directories [dirs] joined by the
    separator: a name that is a file is returned as it is; any other name
    is returned under the first of [dirs] that has it; [None] is returned
    when none has it. *)
Theorem FindExecutable_posix (executable : string) (dirs : list string)
    (p : process OS) :
  on_windows = false ->
  dirs <> [] -> Forall (fun d => has_char pathsep d = false) dirs ->
  environ p !! "PATH" = Some (join os_pathsep dirs) ->
  FindExecutable executable p =
  (p, Done (if isfile executable (os p) then Some executable
            else (fun d => p_join d executable) <$>
                 head (filter (fun d => isfile (p_join d executable) (os p) = true)
                         dirs))).
Proof.
  intros Hwin Hne Hdirs HPATH.
  rewrite (FindExecutable_eq _ _ _ HPATH). unfold os_pathsep.
  rewrite split_join by assumption.
  unfold executable_extensions. destruct (p_splitext executable) as [b e].
  rewrite Hwin. simpl. rewrite string_app_empty_r.
  destruct (isfile executable (os p)); simpl; [reflexivity|].
  f_equal. clear. induction dirs as [|d dirs IH]; simpl; [reflexivity|].
  rewrite filter_cons. destruct (isfile (p_join d executable) (os p)) eqn:Hd.
  - rewrite decide_True by reflexivity. reflexivity.
  - rewrite decide_False by discriminate. rewrite IH.
    destruct (head _); reflexivity.
Qed.

(** On Windows, for a name whose extension is none of the three: when
    the name with [.exe] added is a file, as it is or in any directory of
    [PATH], the result is the name with [.exe] added, found in one of
    these places, whatever files the name with [.bat] or [.cmd] added
    denotes. *)
Theorem FindExecutable_windows_exe_first (executable PATH : string)
    (p : process OS) :
  on_windows = true ->
  lower (p_splitext executable).2 ∉ WIN_EXECUTABLE_EXTS ->
  environ p !! "PATH" = Some PATH ->
  ~ no_hit (os p) (split pathsep PATH) (executable +:+ ".exe") ->
  exists path,
    FindExecutable executable p = (p, Done (Some path)) /\
    first_hit (os p) (split pathsep PATH) (executable +:+ ".exe") path.
Proof.
  intros Hwin Hext HPATH Hhit.
  rewrite (FindExecutable_eq _ _ _ HPATH).
  unfold executable_extensions. destruct (p_splitext executable) as [b e].
  simpl in Hext. rewrite Hwin, bool_decide_eq_false_2 by exact Hext. simpl.
  destruct (isfile (executable +:+ ".exe") (os p)) eqn:Hfile; simpl.
  - eexists. split; [reflexivity|]. left. split; [exact Hfile | reflexivity].
  - destruct (search_paths (os p) (split pathsep PATH) (executable +:+ ".exe"))
      as [path|] eqn:Hs.
    + eexists. split; [reflexivity|]. right. split; [exact Hfile|].
      apply search_paths_Some. exact Hs.
    + exfalso. apply Hhit. split; [exact Hfile|].
      apply search_paths_None. exact Hs.
Qed.

(** *** FindExecutableOrDie *)

(** [FindExecutableOrDie] changes nothing. Without [PATH] it lets the
    [KeyError] through. With [PATH]: when the name is found under no
    extension, neither as it is nor in a directory of [PATH], it ends
    the run with the message that names the executable; when the name is
    found, it returns the path found first, which is a file (and ends
    the run as before if that path is the empty one). So it either
    returns a file that is not the empty path, or ends the run with
    that message. *)
Theorem FindExecutableOrDie_spec (executable message : string) (p : process OS) :
  let die : outcome string :=
    Fail (SystemExit
            (Some ("ERROR: Unable to find executable '" +:+ executable +:+
                   "'. " +:+ message))) in
  match environ p !! "PATH" with
  | None =>
      FindExecutableOrDie executable message p =
      (p, Fail (Exception (KeyError "PATH")))
  | Some PATH =>
      let paths := split pathsep PATH in
      let extensions := executable_extensions executable in
      ((forall ext, ext ∈ extensions ->
          no_hit (os p) paths (executable +:+ ext)) ->
       FindExecutableOrDie executable message p = (p, die)) /\
      (forall before ext after path,
         extensions = before ++ ext :: after ->
         (forall ext', ext' ∈ before ->
            no_hit (os p) paths (executable +:+ ext')) ->
         first_hit (os p) paths (executable +:+ ext) path ->
         isfile path (os p) = true /\
         FindExecutableOrDie executable message p =
         (p, if String.eqb path EmptyString then die else Done path)) /\
      ((exists path,
          FindExecutableOrDie executable message p = (p, Done path) /\
          path <> EmptyString /\ isfile path (os p) = true) \/
       FindExecutableOrDie executable message p = (p, die))
  end.
Proof.
  intros die. subst die.
  unfold FindExecutableOrDie, unable_to_find, sys_exit, raise, mbind, M_bind.
  destruct (environ p !! "PATH") as [PATH|] eqn:HPATH.
  - rewrite (FindExecutable_eq _ _ _ HPATH). cbv zeta.
    split; [|split].
    + intros Hnone. apply search_extensions_None in Hnone.
      rewrite Hnone. reflexivity.
    + intros before ext after path Hexts Hbefore Hhit.
      assert (Hsearch : search_extensions (os p) (split pathsep PATH)
                          executable (executable_extensions executable) =
                        Some path).
      { apply search_extensions_Some. exists before, ext, after. auto. }
      split; [eapply search_extensions_isfile; exact Hsearch|].
      rewrite Hsearch. destruct (String.eqb path EmptyString); reflexivity.
    + destruct (search_extensions (os p) (split pathsep PATH) executable
                  (executable_extensions executable)) as [path|] eqn:Hsearch;
        [|right; reflexivity].
      destruct (String.eqb path EmptyString) eqn:Hempty;
        [right; reflexivity|].
      left. exists path. split; [reflexivity|].
      split; [apply String.eqb_neq; exact Hempty|].
      eapply search_extensions_isfile. exact Hsearch.
  - rewrite (FindExecutable_no_PATH _ _ HPATH). reflexivity.
Qed.

(** *** Reasoning about runs *)

Lemma runs_weaken {A : Type} (S S' : list event -> option failure -> Prop)
    (m : M OS A) :
  (forall evs f, S evs f -> S' evs f) -> runs S m -> runs S' m.
Proof.
  intros Himp Hm p. destruct (Hm p) as (evs & Hevs & HS).
  exists evs. split; [exact Hevs | apply Himp; exact HS].
Qed.

Lemma runs_bind {A B : Type} (S1 S2 : list event -> option failure -> Prop)
    (m : M OS A) (k : A -> M OS B) :
  runs S1 m -> (forall a, runs S2 (k a)) -> runs (seq S1 S2) (x ← m; k x).
Proof.
  intros Hm Hk p. unfold mbind, M_bind.
  destruct (Hm p) as (evs1 & Hevs1 & HS1).
  destruct (m p) as [p1 [a|f]]; simpl in *.
  - destruct (Hk a p1) as (evs2 & Hevs2 & HS2).
    exists (evs1 ++ evs2). split.
    + rewrite Hevs2, Hevs1, app_assoc. reflexivity.
    + exists evs1, evs2, None. auto.
  - exists evs1. split; [exact Hevs1|].
    exists evs1, [], (Some f). rewrite app_nil_r. auto.
Qed.

Lemma runs_silent_Done {A : Type} (m : M OS A) :
  (forall p, events (m p).1 = events p /\ failed (m p).2 = None) ->
  runs (OS:=OS) (silent None) m.
Proof.
  intros Hm p. destruct (Hm p) as [Hevs Hf]. exists [].
  rewrite app_nil_r. split; [exact Hevs | split; [reflexivity | exact Hf]].
Qed.

Lemma runs_ret {A : Type} (a : A) : runs (OS:=OS) (silent None) (mret a : M OS A).
Proof. apply runs_silent_Done. intros p. split; reflexivity. Qed.

Lemma runs_print (line : string) : runs (OS:=OS) (silent None) (print line).
Proof. apply runs_silent_Done. intros p. split; reflexivity. Qed.

Lemma runs_read_os {A : Type} (f : OS -> A) : runs (OS:=OS) (silent None) (read_os f).
Proof. apply runs_silent_Done. intros p. split; reflexivity. Qed.

Lemma runs_get_environ : runs (OS:=OS) (silent None) get_environ.
Proof. apply runs_silent_Done. intros p. split; reflexivity. Qed.

Lemma runs_set_environ (e : environment) : runs (OS:=OS) (silent None) (set_environ e).
Proof. apply runs_silent_Done. intros p. split; reflexivity. Qed.

Lemma runs_get_BASE_PYTEST_ARGS : runs (OS:=OS) (silent None) get_BASE_PYTEST_ARGS.
Proof. apply runs_silent_Done. intros p. split; reflexivity. Qed.

Lemma runs_set_BASE_PYTEST_ARGS (l : list string) :
  runs (OS:=OS) (silent None) (set_BASE_PYTEST_ARGS l).
Proof. apply runs_silent_Done. intros p. split; reflexivity. Qed.

Lemma runs_ParseArguments_run (parsed : Namespace * list string) :
  runs (OS:=OS) (silent None) (ParseArguments_run registry parsed).
Proof.
  apply runs_silent_Done. intros p. unfold ParseArguments_run.
  destruct (ParseArguments registry parsed (environ p)). split; reflexivity.
Qed.

Lemma runs_raise {A : Type} (f : failure) :
  runs (OS:=OS) (silent (Some f)) (raise f : M OS A).
Proof. intros p. exists []. rewrite app_nil_r. repeat split. Qed.

Lemma runs_lift {A : Type} (r : result A) :
  runs (OS:=OS) (silent (match r with
                | Return _ => None
                | Raise e => Some (Exception e)
                end)) (lift r).
Proof.
  intros p. exists []. rewrite app_nil_r. destruct r; repeat split.
Qed.

Lemma runs_call_os {A : Type} (ev : result A -> event)
    (f : OS -> OS * result A) :
  runs (OS:=OS) (fun evs fl =>
          exists r, evs = [ ev r ] /\
            fl = match r with
                 | Return _ => None
                 | Raise e => Some (Exception e)
                 end) (call_os ev f).
Proof.
  intros p. unfold call_os. destruct (f (os p)) as [os' r]. simpl.
  exists [ ev r ]. split; [reflexivity|]. exists r.
  split; [reflexivity|]. destruct r; reflexivity.
Qed.

(** [check_call] spawns one child and raises unless it exits with 0. *)
Lemma runs_check_call (argv : list string) (env : option environment) :
  runs (OS:=OS) (fun evs f =>
          exists env' status, evs = [ Spawn argv env' status ] /\
            f = match status with
                | Return returncode =>
                    if Z.eqb returncode 0 then None
                    else Some (CalledProcessError returncode argv)
                | Raise e => Some (Exception e)
                end)
       (check_call argv env).
Proof.
  intros p. unfold check_call, mbind, M_bind, get_environ, call_os.
  destruct (spawn argv (default (environ p) env) (os p)) as [os' [status|e]];
    simpl.
  - destruct (Z.eqb status 0) eqn:Hz; simpl;
      (eexists; split; [reflexivity|]; eexists _, _; split; [reflexivity|]);
      cbn; rewrite Hz; reflexivity.
  - eexists. split; [reflexivity|]. eexists _, _. split; reflexivity.
Qed.

(** *** Failing fast *)

Lemma fail_fast_seq (evs : list event) (f : option failure) :
  seq fail_fast fail_fast evs f -> fail_fast evs f.
Proof.
  intros (evs1 & evs2 & f1 & -> & H1 & H2). destruct f1 as [f1|].
  - destruct H2 as [-> ->]. rewrite app_nil_r. exact H1.
  - destruct H1 as [[Hok1 _]|(b & a & e & s & _ & _ & _ & Hf)];
      [|discriminate].
    destruct H2 as [[Hok2 Hf]|(b & a & e & s & -> & Hok2 & Hs & ->)].
    + left. split; [apply Forall_app; auto | exact Hf].
    + right. exists (evs1 ++ b), a, e, s. rewrite app_assoc.
      repeat split; try assumption. apply Forall_app. auto.
Qed.

Lemma fail_fast_silent (f0 : option failure) (evs : list event)
    (f : option failure) :
  (forall returncode cmd, f0 <> Some (CalledProcessError returncode cmd)) ->
  silent f0 evs f -> fail_fast evs f.
Proof. intros Hf0 [-> ->]. left. split; [constructor | exact Hf0]. Qed.

Lemma fail_fast_bind {A B : Type} (m : M OS A) (k : A -> M OS B) :
  runs fail_fast m -> (forall a, runs fail_fast (k a)) ->
  runs fail_fast (x ← m; k x).
Proof.
  intros Hm Hk. eapply runs_weaken; [apply fail_fast_seq|].
  apply runs_bind; assumption.
Qed.

Lemma fail_fast_quiet {A : Type} (m : M OS A) :
  runs (silent None) m -> runs fail_fast m.
Proof.
  apply runs_weaken. intros evs f. apply fail_fast_silent. discriminate.
Qed.

Lemma fail_fast_lift {A : Type} (r : result A) : runs (OS:=OS) fail_fast (lift r).
Proof.
  eapply runs_weaken; [|apply runs_lift]. intros evs f.
  apply fail_fast_silent. destruct r; discriminate.
Qed.

Lemma fail_fast_raise {A : Type} (f : failure) :
  (forall returncode cmd, f <> CalledProcessError returncode cmd) ->
  runs fail_fast (raise f : M OS A).
Proof.
  intros Hf. eapply runs_weaken; [|apply runs_raise]. intros evs f'.
  apply fail_fast_silent. congruence.
Qed.

Lemma fail_fast_call_os {A : Type} (ev : result A -> event)
    (f : OS -> OS * result A) :
  (forall r, spawn_ok (ev r)) -> runs fail_fast (call_os ev f).
Proof.
  intros Hev. eapply runs_weaken; [|apply runs_call_os].
  intros evs fl (r & -> & ->). left. split.
  - constructor; [apply Hev | constructor].
  - destruct r; discriminate.
Qed.

Lemma fail_fast_check_call (argv : list string) (env : option environment) :
  runs (OS:=OS) fail_fast (check_call argv env).
Proof.
  eapply runs_weaken; [|apply runs_check_call].
  intros evs f (env' & status & -> & ->).
  destruct status as [returncode|e].
  - destruct (Z.eqb returncode 0) eqn:Hz.
    + apply Z.eqb_eq in Hz. subst. left. split; [|discriminate].
      constructor; [reflexivity | constructor].
    + apply Z.eqb_neq in Hz. right. exists [], argv, env', (Return returncode).
      repeat split; [constructor | congruence].
  - right. exists [], argv, env', (Raise e).
    repeat split; [constructor | discriminate].
Qed.

Ltac fail_fast_step :=
  first
    [ progress cbv zeta
    | apply fail_fast_check_call
    | apply fail_fast_bind; [|intros ?]
    | apply fail_fast_lift
    | apply fail_fast_call_os; intros ?; exact I
    | apply fail_fast_raise; discriminate
    | apply fail_fast_quiet;
      first [ apply runs_ret | apply runs_print | apply runs_read_os
            | apply runs_get_environ | apply runs_set_environ
            | apply runs_get_BASE_PYTEST_ARGS | apply runs_set_BASE_PYTEST_ARGS
            | apply runs_ParseArguments_run ]
    | match goal with
      | |- runs _ (match ?x with _ => _ end) => destruct x
      end ].

Lemma fail_fast_FindExecutableOrDie (executable message : string) :
  runs (OS:=OS) fail_fast (FindExecutableOrDie executable message).
Proof.
  unfold FindExecutableOrDie, FindExecutable, sys_exit.
  repeat fail_fast_step.
Qed.

Lemma fail_fast_DownloadFileTo (download_url file_path : string) :
  runs (OS:=OS) fail_fast (DownloadFileTo download_url file_path).
Proof. unfold DownloadFileTo. repeat fail_fast_step. Qed.

Lemma fail_fast_SetUpGenericLSPCompleter :
  runs (OS:=OS) fail_fast SetUpGenericLSPCompleter.
Proof.
  unfold SetUpGenericLSPCompleter.
  repeat first [ apply fail_fast_FindExecutableOrDie | fail_fast_step ].
Qed.

Lemma fail_fast_SetUpJavaCompleter : runs (OS:=OS) fail_fast SetUpJavaCompleter.
Proof.
  unfold SetUpJavaCompleter.
  repeat first [ apply fail_fast_DownloadFileTo | fail_fast_step ].
Qed.

Lemma fail_fast_RunFlake8 : runs (OS:=OS) fail_fast RunFlake8.
Proof. unfold RunFlake8. repeat fail_fast_step. Qed.

Lemma fail_fast_BuildYcmdLibs_run (args : Namespace) :
  runs (OS:=OS) fail_fast (BuildYcmdLibs_run registry args).
Proof. unfold BuildYcmdLibs_run. repeat fail_fast_step. Qed.

Lemma fail_fast_PytestTests_run (parsed_args : Namespace)
    (extra_pytests_args : list string) :
  runs (OS:=OS) fail_fast
    (PytestTests_run registry parsed_args extra_pytests_args).
Proof. unfold PytestTests_run. repeat fail_fast_step. Qed.

Lemma fail_fast_PytestValgrind (parsed_args : Namespace)
    (extra_pytests_args : list string) :
  runs (OS:=OS) fail_fast (PytestValgrind parsed_args extra_pytests_args).
Proof. unfold PytestValgrind. repeat fail_fast_step. Qed.

(** [Main] stops at the first child that does not exit with 0: such a
    child is the last call [Main] makes, and [Main] ends with the
    [CalledProcessError] that carries its status and command (or with the
    exception that kept it from starting); every child before it exited
    with 0, and so did every child when [Main] ends in any other way. *)
Theorem Main_fails_fast (parsed : Namespace * list string) (p : process OS) :
  exists evs,
    events (Main registry parsed p).1 = events p ++ evs /\
    fail_fast evs (failed (Main registry parsed p).2).
Proof.
  revert p. change (runs fail_fast (Main registry parsed)).
  unfold Main, sys_exit.
  repeat first
    [ apply fail_fast_SetUpGenericLSPCompleter
    | apply fail_fast_SetUpJavaCompleter
    | apply fail_fast_RunFlake8
    | apply fail_fast_BuildYcmdLibs_run
    | apply fail_fast_PytestValgrind
    | apply fail_fast_PytestTests_run
    | fail_fast_step ].
Qed.

(** *** The phases of [Main] *)

Section Shape.
Variable P : list event -> Prop.
Hypothesis P_nil : P [].
Hypothesis P_app : forall evs1 evs2, P evs1 -> P evs2 -> P (evs1 ++ evs2).

Lemma shape_bind {A B : Type} (m : M OS A) (k : A -> M OS B) :
  runs (fun evs _ => P evs) m -> (forall a, runs (fun evs _ => P evs) (k a)) ->
  runs (fun evs _ => P evs) (x ← m; k x).
Proof.
  intros Hm Hk. eapply runs_weaken; [|apply runs_bind; [exact Hm | exact Hk]].
  intros evs f (evs1 & evs2 & f1 & -> & H1 & H2). destruct f1.
  - destruct H2 as [-> _]. rewrite app_nil_r. exact H1.
  - apply P_app; assumption.
Qed.

Lemma shape_silent {A : Type} (f0 : option failure) (m : M OS A) :
  runs (silent f0) m -> runs (fun evs _ => P evs) m.
Proof. apply runs_weaken. intros evs f [-> _]. exact P_nil. Qed.

Lemma shape_lift {A : Type} (r : result A) :
  runs (OS:=OS) (fun evs _ => P evs) (lift r).
Proof. eapply shape_silent. apply runs_lift. Qed.

Lemma shape_raise {A : Type} (f : failure) :
  runs (fun evs _ => P evs) (raise f : M OS A).
Proof. eapply shape_silent. apply runs_raise. Qed.

Lemma shape_call_os {A : Type} (ev : result A -> event)
    (f : OS -> OS * result A) :
  (forall r, P [ ev r ]) -> runs (fun evs _ => P evs) (call_os ev f).
Proof.
  intros Hev. eapply runs_weaken; [|apply runs_call_os].
  intros evs fl (r & -> & _). apply Hev.
Qed.

Lemma shape_check_call (argv : list string) (env : option environment) :
  (forall env' status, P [ Spawn argv env' status ]) ->
  runs (OS:=OS) (fun evs _ => P evs) (check_call argv env).
Proof.
  intros Hev. eapply runs_weaken; [|apply runs_check_call].
  intros evs fl (env' & status & -> & _). apply Hev.
Qed.

End Shape.

Ltac shape_step P :=
  first
    [ progress cbv zeta
    | apply (shape_bind P); [assumption | | intros ?]
    | apply (shape_lift P); assumption
    | apply (shape_raise P); assumption
    | eapply (shape_silent P);
      [ assumption
      | first [ apply runs_ret | apply runs_print | apply runs_read_os
              | apply runs_get_environ | apply runs_set_environ
              | apply runs_get_BASE_PYTEST_ARGS
              | apply runs_set_BASE_PYTEST_ARGS ] ]
    | match goal with
      | |- runs _ (match ?x with _ => _ end) => destruct x
      end ].

Lemma setup_events_app (evs1 evs2 : list event) :
  Forall setup_event evs1 -> Forall setup_event evs2 ->
  Forall setup_event (evs1 ++ evs2).
Proof. intros H1 H2. apply Forall_app. auto. Qed.

Lemma setup_FindExecutableOrDie (executable message : string) :
  runs (OS:=OS) (fun evs _ => Forall setup_event evs)
    (FindExecutableOrDie executable message).
Proof.
  pose proof (Forall_nil_2 setup_event) as Hnil.
  pose proof setup_events_app as Happ.
  unfold FindExecutableOrDie, FindExecutable, sys_exit.
  repeat shape_step (Forall setup_event).
Qed.

Lemma setup_SetUpGenericLSPCompleter :
  runs (OS:=OS) (fun evs _ => Forall setup_event evs) SetUpGenericLSPCompleter.
Proof.
  pose proof (Forall_nil_2 setup_event) as Hnil.
  pose proof setup_events_app as Happ.
  unfold SetUpGenericLSPCompleter.
  repeat first
    [ apply setup_FindExecutableOrDie
    | apply (shape_call_os (Forall setup_event)); intros r; repeat constructor
    | apply (shape_check_call (Forall setup_event)); intros env' status;
      constructor; [eexists; eauto | constructor]
    | shape_step (Forall setup_event) ].
Qed.

Lemma setup_SetUpJavaCompleter :
  runs (OS:=OS) (fun evs _ => Forall setup_event evs) SetUpJavaCompleter.
Proof.
  pose proof (Forall_nil_2 setup_event) as Hnil.
  pose proof setup_events_app as Happ.
  unfold SetUpJavaCompleter, DownloadFileTo.
  repeat first
    [ apply (shape_call_os (Forall setup_event)); intros r; repeat constructor
    | shape_step (Forall setup_event) ].
Qed.

Lemma runs_bind_value {A B : Type} (R : A -> Prop)
    (S1 S2 : list event -> option failure -> Prop)
    (m : M OS A) (k : A -> M OS B) :
  (forall p a, (m p).2 = Done a -> R a) ->
  runs S1 m -> (forall a, R a -> runs S2 (k a)) ->
  runs (seq S1 S2) (x ← m; k x).
Proof.
  intros HR Hm Hk p. unfold mbind, M_bind.
  destruct (Hm p) as (evs1 & Hevs1 & HS1). specialize (HR p).
  destruct (m p) as [p1 [a|f]]; simpl in *.
  - destruct (Hk a (HR a eq_refl) p1) as (evs2 & Hevs2 & HS2).
    exists (evs1 ++ evs2). split.
    + rewrite Hevs2, Hevs1, app_assoc. reflexivity.
    + exists evs1, evs2, None. auto.
  - exists evs1. split; [exact Hevs1|].
    exists evs1, [], (Some f). rewrite app_nil_r. auto.
Qed.

(** [ParseArguments] leaves the options that steer [Main] as they were
    parsed, and the selection it stores is a list. *)
Lemma ParseArguments_flags (parsed : Namespace * list string)
    (e : environment) :
  let parsed_args := (ParseArguments registry parsed e).2.1 in
  dump_path parsed_args = dump_path parsed.1 /\
  skip_build parsed_args = skip_build parsed.1 /\
  no_flake8 parsed_args = no_flake8 parsed.1 /\
  valgrind parsed_args = valgrind parsed.1 /\
  no_retry parsed_args = no_retry parsed.1 /\
  quiet parsed_args = quiet parsed.1 /\
  msvc parsed_args = msvc parsed.1 /\
  completers parsed_args =
    Some (elements (FixupCompleters registry parsed.1 e).2) /\
  coverage parsed_args =
    match e !! "COVERAGE" with
    | Some v => String.eqb v "true"
    | None => coverage parsed.1
    end /\
  (ParseArguments registry parsed e).2.2 = parsed.2.
Proof.
  destruct parsed as [parsed_args pytests_args]. unfold ParseArguments. simpl.
  destruct (FixupCompleters registry parsed_args e) as [printed selected].
  destruct (e !! "COVERAGE"); simpl; repeat split.
Qed.

Lemma extend_build_flags_prefix (items : dict completer_spec)
    (selected : option (list string)) (build_cmd extended : list string) :
  extend_build_flags items selected build_cmd = Return extended ->
  exists flags, extended = build_cmd ++ flags.
Proof.
  revert build_cmd. induction items as [|[key v] rest IH]; intros build_cmd.
  - intros [= <-]. exists []. rewrite app_nil_r. reflexivity.
  - simpl. destruct selected as [l|]; simpl; [|discriminate].
    intros Hrest. apply IH in Hrest. destruct Hrest as [flags ->].
    destruct (bool_decide (key ∈ l)).
    + exists (build v ++ flags). rewrite app_assoc. reflexivity.
    + exists flags. reflexivity.
Qed.

Lemma BuildYcmdLibs_shape (args : Namespace) (e e' : environment)
    (call : option process_call) :
  BuildYcmdLibs sys_executable DIR_OF_THIS_SCRIPT p_join registry args e =
    Return (e', call) ->
  match call with
  | Some build =>
      skip_build args = false /\ e' = add_dev_flags e /\ env build = e' /\
      exists flags,
        argv build =
          [ sys_executable; p_join DIR_OF_THIS_SCRIPT "build.py";
            "--core-tests" ] ++ flags
  | None => skip_build args = true /\ e' = e
  end.
Proof.
  unfold BuildYcmdLibs. destruct (skip_build args).
  - intros [= <- <-]. split; reflexivity.
  - destruct (extend_build_flags registry (completers args) _)
      as [extended|exc] eqn:Hext; simpl; [|discriminate].
    intros [= <- <-]. repeat split.
    apply extend_build_flags_prefix in Hext. destruct Hext as [flags ->].
    simpl.
    destruct (Z.eqb (msvc args) 0), (coverage args), (quiet args); simpl;
      eexists; rewrite <- ?app_assoc; reflexivity.
Qed.

Lemma phase_RunFlake8 :
  runs (OS:=OS) (fun evs _ => flake8_events evs /\ evs <> []) RunFlake8.
Proof.
  intros p. unfold RunFlake8, mbind, M_bind, print, read_os. simpl.
  match goal with
  | |- context [ check_call ?a ?e ?q ] =>
      destruct (runs_check_call a e q) as (evs & Hevs & env' & st & -> & _)
  end.
  eexists. split; [exact Hevs|]. split; [|discriminate].
  right. eexists _, _, _. reflexivity.
Qed.

Lemma phase_BuildYcmdLibs_run (args : Namespace) :
  runs (OS:=OS)
    (fun evs f =>
       build_events evs /\
       (skip_build args = true -> evs = []) /\
       (f = None -> skip_build args = false -> evs <> []))
    (BuildYcmdLibs_run registry args).
Proof.
  intros p. unfold BuildYcmdLibs_run, mbind, M_bind, get_environ.
  destruct (BuildYcmdLibs _ _ _ _ _ _) as [[e' [build|]]|exc] eqn:Hbuild.
  - apply BuildYcmdLibs_shape in Hbuild.
    destruct Hbuild as (Hskip & _ & _ & flags & Hargv). simpl.
    match goal with
    | |- context [ check_call ?a ?e ?q ] =>
        destruct (runs_check_call a e q) as (evs & Hevs & env' & st & -> & _)
    end.
    eexists. split; [exact Hevs|]. split; [|split].
    + right. rewrite Hargv. eexists _, _, _. reflexivity.
    + congruence.
    + discriminate.
  - apply BuildYcmdLibs_shape in Hbuild. destruct Hbuild as [Hskip _].
    exists []. rewrite app_nil_r. split; [reflexivity|].
    split; [left; reflexivity|]. split; [reflexivity | congruence].
  - exists []. rewrite app_nil_r. split; [reflexivity|].
    split; [left; reflexivity|]. split; [reflexivity | discriminate].
Qed.

Lemma phase_PytestTests_run (parsed_args : Namespace)
    (extra_pytests_args : list string) :
  runs (OS:=OS)
    (fun evs f => test_events false evs /\ (f = None -> evs <> []))
    (PytestTests_run registry parsed_args extra_pytests_args).
Proof.
  intros p.
  unfold PytestTests_run, mbind, M_bind, get_BASE_PYTEST_ARGS, lift,
    set_BASE_PYTEST_ARGS, get_environ.
  destruct (pytests_args_of _ _ _ _ _ _) as [pytests_args|exc]; simpl.
  - destruct (pytests_env _ _ _ _ _) as [env|exc]; simpl.
    + match goal with
      | |- context [ check_call ?a ?e ?q ] =>
          destruct (runs_check_call a e q) as (evs & Hevs & env' & st & -> & _)
      end.
      eexists. split; [exact Hevs|]. split; [|discriminate].
      right. exists pytests_args, env', st. reflexivity.
    + exists []. rewrite app_nil_r. split; [reflexivity|].
      split; [left; reflexivity | discriminate].
  - exists []. rewrite app_nil_r. split; [reflexivity|].
    split; [left; reflexivity | discriminate].
Qed.

Lemma phase_PytestValgrind (parsed_args : Namespace)
    (extra_pytests_args : list string) :
  runs (OS:=OS)
    (fun evs f => test_events true evs /\ (f = None -> evs <> []))
    (PytestValgrind parsed_args extra_pytests_args).
Proof.
  intros p.
  unfold PytestValgrind, mbind, M_bind, get_BASE_PYTEST_ARGS,
    set_BASE_PYTEST_ARGS, get_environ, read_os, mret, M_ret, ret.
  destruct extra_pytests_args as [|x extra]; simpl;
    match goal with
    | |- context [ check_call ?a ?e ?q ] =>
        destruct (runs_check_call a e q) as (evs & Hevs & env' & st & -> & _)
    end;
    (eexists; split; [exact Hevs|]; split; [|discriminate]);
    right; eexists _, env', st; reflexivity.
Qed.

Lemma phase_setup (skip : bool) :
  runs (OS:=OS)
    (fun evs _ => Forall setup_event evs /\ (skip = true -> evs = []))
    (if negb skip
     then _ ← SetUpGenericLSPCompleter; SetUpJavaCompleter
     else mret tt).
Proof.
  destruct skip; simpl.
  - eapply runs_weaken; [|apply runs_ret]. intros evs f [-> _].
    split; [constructor | reflexivity].
  - eapply runs_weaken; [intros evs f Hevs; split; [exact Hevs | discriminate]|].
    apply (shape_bind (Forall setup_event)).
    + apply setup_events_app.
    + apply setup_SetUpGenericLSPCompleter.
    + intros _. apply setup_SetUpJavaCompleter.
Qed.

Lemma phase_flake8 (disabled : bool) :
  runs (OS:=OS)
    (fun evs f =>
       flake8_events evs /\ (disabled = true -> evs = []) /\
       (f = None -> disabled = false -> evs <> []))
    (if negb disabled then RunFlake8 else mret tt).
Proof.
  destruct disabled; simpl.
  - eapply runs_weaken; [|apply runs_ret]. intros evs f [-> _].
    split; [left; reflexivity|]. split; [reflexivity | discriminate].
  - eapply runs_weaken; [|apply phase_RunFlake8]. intros evs f [Hevs Hne].
    split; [exact Hevs|]. split; [discriminate | auto].
Qed.

Lemma phase_tests (under_valgrind : bool) (parsed_args : Namespace)
    (pytests_args : list string) :
  runs (OS:=OS)
    (fun evs f => test_events under_valgrind evs /\ (f = None -> evs <> []))
    (if under_valgrind
     then PytestValgrind parsed_args pytests_args
     else PytestTests_run registry parsed_args pytests_args).
Proof.
  destruct under_valgrind;
    [apply phase_PytestValgrind | apply phase_PytestTests_run].
Qed.

Lemma phase_dump_path :
  runs (OS:=OS) (fun evs f => evs = [] /\ f <> None)
    (e ← get_environ;
     PYTHONPATH ← lift (match e !! "PYTHONPATH" with
                        | Some v => Return v
                        | None => Raise (KeyError "PYTHONPATH")
                        end);
     _ ← print PYTHONPATH;
     (sys_exit None : M OS unit)).
Proof.
  intros p. unfold mbind, M_bind, get_environ, lift, print, sys_exit.
  exists []. rewrite app_nil_r.
  destruct (environ p !! "PYTHONPATH"); simpl; repeat split; discriminate.
Qed.

(** [Main] makes its calls on the system in four phases that follow each
    other: the set-up (only chdir, npm, the cache directory and the
    download), flake8, the build and the tests, each of the last three at
    most one child. With [--dump-path] no call is made; with
    [--skip-build] the set-up and the build make none; with [--no-flake8]
    flake8 is not run. When [Main] returns, the tests were run, and so
    were flake8 and the build unless they were switched off. *)
Theorem Main_phases (parsed : Namespace * list string) (p : process OS) :
  exists setup flake8 build tests,
    events (Main registry parsed p).1 =
      events p ++ setup ++ flake8 ++ build ++ tests /\
    Forall setup_event setup /\ flake8_events flake8 /\
    build_events build /\ test_events (valgrind parsed.1) tests /\
    (dump_path parsed.1 = true ->
       setup = [] /\ flake8 = [] /\ build = [] /\ tests = []) /\
    (skip_build parsed.1 = true -> setup = [] /\ build = []) /\
    (no_flake8 parsed.1 = true -> flake8 = []) /\
    ((Main registry parsed p).2 = Done tt ->
       dump_path parsed.1 = false /\ tests <> [] /\
       (skip_build parsed.1 = false -> build <> []) /\
       (no_flake8 parsed.1 = false -> flake8 <> [])).
Proof.
  assert (Hruns : runs
    (seq (silent None)
       (fun evs f =>
          (dump_path parsed.1 = true /\ evs = [] /\ f <> None) \/
          (dump_path parsed.1 = false /\
           seq (silent None)
             (seq (fun evs _ => Forall setup_event evs /\
                                (skip_build parsed.1 = true -> evs = []))
                (seq (fun evs f =>
                        flake8_events evs /\
                        (no_flake8 parsed.1 = true -> evs = []) /\
                        (f = None -> no_flake8 parsed.1 = false -> evs <> []))
                   (seq (fun evs f =>
                           build_events evs /\
                           (skip_build parsed.1 = true -> evs = []) /\
                           (f = None -> skip_build parsed.1 = false ->
                            evs <> []))
                      (fun evs f =>
                         test_events (valgrind parsed.1) evs /\
                         (f = None -> evs <> [])))))
             evs f)))
    (Main registry parsed)).
  { unfold Main.
    apply (runs_bind_value
             (fun a => dump_path a.1 = dump_path parsed.1 /\
                       skip_build a.1 = skip_build parsed.1 /\
                       no_flake8 a.1 = no_flake8 parsed.1 /\
                       valgrind a.1 = valgrind parsed.1)).
    - intros q a. unfold ParseArguments_run.
      pose proof (ParseArguments_flags parsed (environ q)) as Hflags.
      destruct (ParseArguments registry parsed (environ q)) as [printed a'].
      intros [= <-]. simpl in Hflags. tauto.
    - apply runs_ParseArguments_run.
    - intros [parsed_args pytests_args] (Hdump & Hskip & Hflake & Hvalgrind).
      simpl in *. rewrite <- Hdump, <- Hskip, <- Hflake, <- Hvalgrind.
      destruct (dump_path parsed_args).
      + eapply runs_weaken; [|apply phase_dump_path].
        intros evs f [-> Hf]. left. auto.
      + eapply runs_weaken; [intros evs f Hseq; right; split;
                              [reflexivity | exact Hseq]|].
        apply runs_bind; [apply runs_print | intros _].
        apply runs_bind; [apply phase_setup | intros _].
        apply runs_bind; [apply phase_flake8 | intros _].
        apply runs_bind; [apply phase_BuildYcmdLibs_run | intros _].
        apply phase_tests. }
  destruct (Hruns p) as (evs & Hevs & Hseq). rewrite Hevs. clear Hruns Hevs.
  assert (Hdone : (Main registry parsed p).2 = Done tt ->
                  failed (Main registry parsed p).2 = None).
  { intros ->. reflexivity. }
  revert Hdone Hseq. generalize (failed (Main registry parsed p).2).
  intros f Hdone (evs0 & evs' & f0 & -> & [-> ->] & Hmain). simpl.
  assert (Hflake_nil : flake8_events []) by (left; reflexivity).
  assert (Hbuild_nil : build_events []) by (left; reflexivity).
  assert (Htests_nil : test_events (valgrind parsed.1) [])
    by (left; reflexivity).
  destruct Hmain as [(Hdump & -> & Hf)|(Hdump & Hphases)].
  - exists [], [], [], []. simpl.
    repeat match goal with |- _ /\ _ => split end;
      try assumption; try reflexivity; try apply Forall_nil_2; auto.
    intros Hd. apply Hdone in Hd. contradiction.
  - destruct Hphases as (e0 & e1 & f1 & -> & [-> ->] & Hsetup). simpl.
    destruct Hsetup as (setup & e2 & f2 & -> & [Hsetup Hskip1] & Hflake).
    destruct f2 as [f2|].
    { destruct Hflake as [-> ->]. exists setup, [], [], [].
      rewrite !app_nil_r.
      repeat match goal with |- _ /\ _ => split end;
        try assumption; try reflexivity; auto; try congruence.
      intros Hd. apply Hdone in Hd. discriminate. }
    destruct Hflake as (flake & e3 & f3 & -> & (Hflake & Hoff & Hran) & Hbuild).
    destruct f3 as [f3|].
    { destruct Hbuild as [-> ->]. exists setup, flake, [], [].
      rewrite !app_nil_r.
      repeat match goal with |- _ /\ _ => split end;
        try assumption; try reflexivity; auto; try congruence.
      intros Hd. apply Hdone in Hd. discriminate. }
    destruct Hbuild
      as (build & e4 & f4 & -> & (Hbuild & Hskip2 & Hbuilt) & Htests).
    destruct f4 as [f4|].
    { destruct Htests as [-> ->]. exists setup, flake, build, [].
      rewrite !app_nil_r.
      repeat match goal with |- _ /\ _ => split end;
        try assumption; try reflexivity; auto; try congruence.
      intros Hd. apply Hdone in Hd. discriminate. }
    destruct Htests as [Htests Htested].
    exists setup, flake, build, e4.
    repeat match goal with |- _ /\ _ => split end;
      try assumption; try reflexivity; auto; try congruence.
Qed.

(** *** The script with [--dump-path] *)

Lemma set_PYTHONPATH_lookup (e : environment) :
  set_PYTHONPATH e !! "PYTHONPATH" =
  Some (join os_pathsep
          (python_path ++ match e !! "PYTHONPATH" with
                          | Some v => [ v ]
                          | None => []
                          end) +:+
        os_pathsep +:+
        p_join (p_join DIR_OF_THIRD_PARTY "jedi_deps") "numpydoc").
Proof.
  unfold set_PYTHONPATH. rewrite lookup_insert_eq.
  destruct (e !! "PYTHONPATH"); [reflexivity|]. rewrite app_nil_r. reflexivity.
Qed.

(** With [--dump-path] the script prints the [PYTHONPATH] the module has
    computed, after the deprecation warning if the legacy flag asks for
    one, and exits with [SystemExit] and no status; it makes no call on
    the system, whatever the other options are. *)
Theorem script_dump_path (parsed : Namespace * list string) (p : process OS) :
  dump_path parsed.1 = true ->
  exists PYTHONPATH,
    set_PYTHONPATH (environ p) !! "PYTHONPATH" = Some PYTHONPATH /\
    script registry parsed p =
    ({| os := os p;
        environ := set_PYTHONPATH (environ p);
        BASE_PYTEST_ARGS := BASE_PYTEST_ARGS_init;
        stdout := stdout p ++
                  (FixupCompleters registry parsed.1
                     (set_PYTHONPATH (environ p))).1 ++
                  [ PYTHONPATH ];
        events := events p |},
     Fail (SystemExit None)).
Proof.
  intros Hdump. eexists. split; [apply set_PYTHONPATH_lookup|].
  unfold script, Main, mbind, M_bind, ParseArguments_run. simpl.
  pose proof (ParseArguments_flags parsed (set_PYTHONPATH (environ p)))
    as (Hd & _).
  unfold ParseArguments in *. destruct parsed as [parsed_args pytests_args].
  simpl in *.
  destruct (FixupCompleters registry parsed_args _) as [printed selected].
  simpl in *.
  match goal with
  | |- context [ dump_path ?a ] =>
      replace (dump_path a) with true by (rewrite Hd; symmetry; exact Hdump)
  end.
  unfold get_environ, lift, print, sys_exit, raise. simpl.
  rewrite set_PYTHONPATH_lookup. simpl. rewrite <- app_assoc. reflexivity.
Qed.

(** *** The value of PYTHONPATH *)

Lemma split_app (sep : Ascii.ascii) (a b : string) :
  split sep (a +:+ String sep b) = split sep a ++ split sep b.
Proof.
  induction a as [|c a IH].
  - rewrite append_nil. simpl. rewrite Ascii.eqb_refl. reflexivity.
  - rewrite append_cons. simpl. rewrite IH.
    pose proof (split_not_nil sep a) as Hne.
    destruct (Ascii.eqb c sep); [reflexivity|].
    destruct (split sep a) as [|w ws]; [contradiction | reflexivity].
Qed.

Lemma split_join_words (sep : Ascii.ascii) (l : list string) :
  l <> [] ->
  split sep (join (String sep EmptyString) l) = concat (map (split sep) l).
Proof.
  induction l as [|w l IH]; intros Hne; [contradiction|].
  destruct l as [|w' l].
  - simpl. rewrite app_nil_r. reflexivity.
  - change (join (String sep EmptyString) (w :: w' :: l))
      with (w +:+ String sep EmptyString +:+
            join (String sep EmptyString) (w' :: l)).
    rewrite append_cons, append_nil, split_app, IH by discriminate.
    reflexivity.
Qed.

(** When no bundled directory has the separator in its path, the
    [PYTHONPATH] the module sets reads, entry by entry: the eight bundled
    directories, then the entries of the [PYTHONPATH] it found, then the
    numpydoc directory. Every other variable keeps its value. *)
Theorem PYTHONPATH_entries (e : environment) :
  Forall (fun d => has_char pathsep d = false)
    (python_path ++
     [ p_join (p_join DIR_OF_THIRD_PARTY "jedi_deps") "numpydoc" ]) ->
  exists value,
    set_PYTHONPATH e !! "PYTHONPATH" = Some value /\
    split pathsep value =
      python_path ++
      match e !! "PYTHONPATH" with
      | Some v => split pathsep v
      | None => []
      end ++
      [ p_join (p_join DIR_OF_THIRD_PARTY "jedi_deps") "numpydoc" ] /\
    forall k, k <> "PYTHONPATH" -> set_PYTHONPATH e !! k = e !! k.
Proof.
  intros Hdirs. apply Forall_app in Hdirs. destruct Hdirs as [Hpath Hdoc].
  inversion Hdoc as [|? ? Hnumpydoc _]; subst.
  eexists. split; [apply set_PYTHONPATH_lookup|]. split.
  - unfold os_pathsep. rewrite append_cons, append_nil, split_app.
    rewrite (split_no_sep _ _ Hnumpydoc).
    rewrite split_join_words by (unfold python_path; destruct (e !! _); discriminate).
    rewrite map_app, concat_app. rewrite <- app_assoc. f_equal.
    + clear -Hpath. induction Hpath as [|d l Hd Hl IH]; [reflexivity|].
      simpl. rewrite (split_no_sep _ _ Hd), IH. reflexivity.
    + destruct (e !! "PYTHONPATH"); simpl; rewrite ?app_nil_r; reflexivity.
  - intros k Hk. unfold set_PYTHONPATH. apply lookup_insert_ne. congruence.
Qed.

(** *** SetUpGenericLSPCompleter *)

(** When npm is found nowhere, [SetUpGenericLSPCompleter] has changed the
    directory to [third_party/generic_server] and ends the run there,
    with the message that names npm; no child is spawned and the
    directory it started in is not restored. *)
Theorem SetUpGenericLSPCompleter_without_npm (PATH : string) (p : process OS)
    (entered : OS) :
  let generic_server := p_join DIR_OF_THIRD_PARTY "generic_server" in
  chdir generic_server (os p) = (entered, Return tt) ->
  environ p !! "PATH" = Some PATH ->
  (forall ext, ext ∈ executable_extensions "npm" ->
     no_hit entered (split pathsep PATH) ("npm" +:+ ext)) ->
  SetUpGenericLSPCompleter p =
  ({| os := entered; environ := environ p;
      BASE_PYTEST_ARGS := BASE_PYTEST_ARGS p; stdout := stdout p;
      events := events p ++ [ Chdir generic_server ] |},
   Fail (SystemExit
           (Some ("ERROR: Unable to find executable 'npm'. " +:+
                  "npm is required torun GenericLSPCompleter tests.")))).
Proof.
  intros generic_server Hchdir HPATH Hnone.
  apply search_extensions_None in Hnone.
  unfold SetUpGenericLSPCompleter, FindExecutableOrDie, FindExecutable,
    mbind, M_bind, read_os, call_os, get_environ, lift. simpl.
  fold generic_server. rewrite Hchdir. simpl. rewrite HPATH. simpl.
  rewrite Hnone. reflexivity.
Qed.

(** When [SetUpGenericLSPCompleter] returns, it has made four calls: it
    entered [third_party/generic_server], ran [npm install] and
    [npm run compile] with the npm it found from there, both with
    [os.environ] and both exiting with 0, and went back to the directory
    it started in. *)
Theorem SetUpGenericLSPCompleter_done (p p' : process OS) :
  SetUpGenericLSPCompleter p = (p', Done tt) ->
  exists npm,
    events p' =
      events p ++
      [ Chdir (p_join DIR_OF_THIRD_PARTY "generic_server");
        Spawn [ npm; "install" ] (environ p) (Return 0%Z);
        Spawn [ npm; "run"; "compile" ] (environ p) (Return 0%Z);
        Chdir (getcwd (os p)) ] /\
    isfile npm (chdir (p_join DIR_OF_THIRD_PARTY "generic_server") (os p)).1
      = true /\
    environ p' = environ p /\ stdout p' = stdout p /\
    BASE_PYTEST_ARGS p' = BASE_PYTEST_ARGS p.
Proof.
  unfold SetUpGenericLSPCompleter, FindExecutableOrDie, FindExecutable,
    check_call, mbind, M_bind, read_os, call_os, get_environ, lift,
    sys_exit, raise, mret, M_ret, ret.
  simpl.
  destruct (chdir _ (os p)) as [entered [[]|e]] eqn:Hchdir; simpl;
    [|discriminate].
  destruct (environ p !! "PATH") as [PATH|]; simpl; [|discriminate].
  destruct (search_extensions entered _ "npm" _) as [npm|] eqn:Hnpm; simpl;
    [|discriminate].
  destruct (String.eqb npm EmptyString); simpl; [discriminate|].
  destruct (spawn [ npm; "install" ] _ entered) as [o1 [s1|e1]]; simpl;
    [|discriminate].
  destruct (Z.eqb s1 0) eqn:Hs1; simpl; [|discriminate].
  apply Z.eqb_eq in Hs1. subst s1.
  destruct (spawn [ npm; "run"; "compile" ] _ o1) as [o2 [s2|e2]]; simpl;
    [|discriminate].
  destruct (Z.eqb s2 0) eqn:Hs2; simpl; [|discriminate].
  apply Z.eqb_eq in Hs2. subst s2.
  destruct (chdir (getcwd (os p)) o2) as [o3 [[]|e3]]; simpl; [|discriminate].
  intros [= <-]. simpl. exists npm.
  split; [rewrite <- !app_assoc; reflexivity|].
  split; [|repeat split].
  eapply search_extensions_isfile. exact Hnpm.
Qed.

(** *** DownloadFileTo and SetUpJavaCompleter *)


(** With the cache directory and the jar in place, [SetUpJavaCompleter]
    does nothing: no call, nothing printed. *)
Lemma SetUpJavaCompleter_cached (p : process OS) :
  let CACHE := p_join (p_join DIR_OF_THIRD_PARTY "lombok") "cache" in
  path_exists CACHE (os p) = true ->
  path_exists (p_join CACHE "lombok-1.18.16.jar") (os p) = true ->
  SetUpJavaCompleter p = (p, Done tt).
Proof.
  intros CACHE Hcache Hjar.
  unfold SetUpJavaCompleter, mbind, M_bind, read_os. simpl.
  fold CACHE. rewrite Hcache. simpl.
  change ("lombok-" +:+ LOMBOK_VERSION +:+ ".jar") with "lombok-1.18.16.jar".
  rewrite Hjar. reflexivity.
Qed.

(** A download that fails while the response is read is not tried again:
    the file was opened for writing before the read, so when the cache
    directory and the opened file exist in the state the failed read
    leaves, the next [SetUpJavaCompleter] finds the jar in place and
    returns without a call. *)
Theorem failed_download_not_retried (p : process OS) (o1 o2 o3 : OS)
    (e : exn) :
  let CACHE := p_join (p_join DIR_OF_THIRD_PARTY "lombok") "cache" in
  let jar := p_join CACHE "lombok-1.18.16.jar" in
  let url := "https://projectlombok.org/downloads/lombok-1.18.16.jar" in
  path_exists CACHE (os p) = true ->
  path_exists jar (os p) = false ->
  urlopen url (os p) = (o1, Return tt) ->
  open_wb jar o1 = (o2, Return tt) ->
  read_response url o2 = (o3, Raise e) ->
  path_exists CACHE o3 = true ->
  path_exists jar o3 = true ->
  exists p',
    SetUpJavaCompleter p = (p', Fail (Exception e)) /\
    events p' = events p ++ [ Urlopen url; OpenWb jar; ReadResponse url ] /\
    stdout p' = stdout p ++ [ "Downloading lombok from " +:+ url +:+ "..." ] /\
    SetUpJavaCompleter p' = (p', Done tt).
Proof.
  intros CACHE jar url Hcache Hjar Hurl Hopen Hread Hcache' Hjar'.
  eexists. split; [|split; [|split]].
  - unfold SetUpJavaCompleter, DownloadFileTo, mbind, M_bind, read_os,
      call_os, print.
    simpl. fold CACHE.
    change ("lombok-" +:+ LOMBOK_VERSION +:+ ".jar") with "lombok-1.18.16.jar".
    change ("https://projectlombok.org/downloads/" +:+ "lombok-1.18.16.jar")
      with url.
    fold jar. rewrite Hcache. simpl. rewrite Hjar. simpl.
    rewrite Hurl. simpl. rewrite Hopen. simpl. rewrite Hread. simpl.
    reflexivity.
  - simpl. rewrite <- !app_assoc. reflexivity.
  - reflexivity.
  - apply SetUpJavaCompleter_cached; assumption.
Qed.

(** *** What [Main] does to [os.environ] *)

Lemma same_environ_bind {A B : Type} (m : M OS A) (k : A -> M OS B) :
  (forall p, environ (m p).1 = environ p) ->
  (forall a p, environ (k a p).1 = environ p) ->
  forall p, environ ((x ← m; k x) p).1 = environ p.
Proof.
  intros Hm Hk p. unfold mbind, M_bind. specialize (Hm p).
  destruct (m p) as [p1 [a|f]]; simpl in *; [|exact Hm].
  rewrite Hk. exact Hm.
Qed.

Lemma same_environ_call_os {A : Type} (ev : result A -> event)
    (f : OS -> OS * result A) (p : process OS) :
  environ (call_os ev f p).1 = environ p.
Proof. unfold call_os. destruct (f (os p)). reflexivity. Qed.

Lemma same_environ_check_call (argv : list string)
    (env : option environment) (p : process OS) :
  environ (check_call argv env p).1 = environ p.
Proof.
  unfold check_call, mbind, M_bind, get_environ, call_os.
  destruct (spawn argv _ (os p)) as [o [status|e]]; simpl; [|reflexivity].
  destruct (Z.eqb status 0); reflexivity.
Qed.

Lemma same_environ_lift {A : Type} (r : result A) (p : process OS) :
  environ (lift r p).1 = environ p.
Proof. destruct r; reflexivity. Qed.

Ltac same_environ_step :=
  first
    [ progress cbv zeta
    | apply same_environ_check_call
    | apply same_environ_call_os
    | apply same_environ_lift
    | apply same_environ_bind; [intros ? | intros ? ?]
    | match goal with
      | |- environ ((match ?x with _ => _ end) _).1 = _ => destruct x
      end
    | reflexivity ].

Lemma same_environ_FindExecutableOrDie (executable message : string)
    (p : process OS) :
  environ (FindExecutableOrDie executable message p).1 = environ p.
Proof.
  revert p. unfold FindExecutableOrDie, FindExecutable, sys_exit.
  repeat same_environ_step.
Qed.

Lemma same_environ_SetUpGenericLSPCompleter (p : process OS) :
  environ (SetUpGenericLSPCompleter p).1 = environ p.
Proof.
  revert p. unfold SetUpGenericLSPCompleter.
  repeat first [ apply same_environ_FindExecutableOrDie | same_environ_step ].
Qed.

Lemma same_environ_SetUpJavaCompleter (p : process OS) :
  environ (SetUpJavaCompleter p).1 = environ p.
Proof.
  revert p. unfold SetUpJavaCompleter, DownloadFileTo.
  repeat same_environ_step.
Qed.

Lemma same_environ_RunFlake8 (p : process OS) :
  environ (RunFlake8 p).1 = environ p.
Proof. revert p. unfold RunFlake8. repeat same_environ_step. Qed.

Lemma same_environ_PytestTests_run (parsed_args : Namespace)
    (extra_pytests_args : list string) (p : process OS) :
  environ (PytestTests_run registry parsed_args extra_pytests_args p).1 =
  environ p.
Proof. revert p. unfold PytestTests_run. repeat same_environ_step. Qed.

Lemma same_environ_PytestValgrind (parsed_args : Namespace)
    (extra_pytests_args : list string) (p : process OS) :
  environ (PytestValgrind parsed_args extra_pytests_args p).1 = environ p.
Proof. revert p. unfold PytestValgrind. repeat same_environ_step. Qed.

Lemma same_environ_ParseArguments_run (parsed : Namespace * list string)
    (p : process OS) :
  environ (ParseArguments_run registry parsed p).1 = environ p.
Proof.
  unfold ParseArguments_run.
  destruct (ParseArguments registry parsed (environ p)). reflexivity.
Qed.

Lemma environ_BuildYcmdLibs_run (args : Namespace) (p : process OS) :
  environ (BuildYcmdLibs_run registry args p).1 =
  if skip_build args then environ p else add_dev_flags (environ p).
Proof.
  unfold BuildYcmdLibs_run, mbind, M_bind, get_environ, set_environ.
  destruct (BuildYcmdLibs _ _ _ _ _ _) as [[e' [build|]]|exc] eqn:Hbuild;
    simpl.
  - apply BuildYcmdLibs_shape in Hbuild.
    destruct Hbuild as (-> & -> & _). apply same_environ_check_call.
  - apply BuildYcmdLibs_shape in Hbuild. destruct Hbuild as (-> & ->).
    reflexivity.
  - reflexivity.
Qed.

Lemma build_environ_after {A B : Type} (R : A -> Prop) (built : Prop)
    (m : M OS A) (k : A -> M OS B) :
  (forall p a, (m p).2 = Done a -> R a) ->
  (forall p, environ (m p).1 = environ p) ->
  (forall a, R a -> forall p,
     environ (k a p).1 = environ p \/
     (built /\ environ (k a p).1 = add_dev_flags (environ p))) ->
  forall p,
    environ ((x ← m; k x) p).1 = environ p \/
    (built /\ environ ((x ← m; k x) p).1 = add_dev_flags (environ p)).
Proof.
  intros HR Hm Hk p. unfold mbind, M_bind.
  specialize (Hm p). specialize (HR p).
  destruct (m p) as [p1 [a|f]]; simpl in *; [|left; exact Hm].
  rewrite <- Hm. apply Hk. apply HR. reflexivity.
Qed.

Lemma build_environ_before {A B : Type} (built : Prop)
    (m : M OS A) (k : A -> M OS B) :
  (forall p,
     environ (m p).1 = environ p \/
     (built /\ environ (m p).1 = add_dev_flags (environ p))) ->
  (forall a p, environ (k a p).1 = environ p) ->
  forall p,
    environ ((x ← m; k x) p).1 = environ p \/
    (built /\ environ ((x ← m; k x) p).1 = add_dev_flags (environ p)).
Proof.
  intros Hm Hk p. unfold mbind, M_bind. specialize (Hm p).
  destruct (m p) as [p1 [a|f]]; simpl in *; [|exact Hm].
  rewrite Hk. exact Hm.
Qed.

(** [Main] changes one variable of [os.environ] at most,
    [EXTRA_CMAKE_ARGS], and none with [--skip-build] or [--dump-path]:
    what it sets for the tests goes into the copy the child gets. *)
Theorem Main_environ (parsed : Namespace * list string) (p : process OS) :
  (forall k, k <> "EXTRA_CMAKE_ARGS" ->
     environ (Main registry parsed p).1 !! k = environ p !! k) /\
  (skip_build parsed.1 = true \/ dump_path parsed.1 = true ->
     environ (Main registry parsed p).1 = environ p).
Proof.
  assert (Hcases : forall p : process OS,
    environ (Main registry parsed p).1 = environ p \/
    ((skip_build parsed.1 = false /\ dump_path parsed.1 = false) /\
     environ (Main registry parsed p).1 = add_dev_flags (environ p))).
  { unfold Main.
    apply (build_environ_after
             (fun a => dump_path a.1 = dump_path parsed.1 /\
                       skip_build a.1 = skip_build parsed.1)).
    - intros q a. unfold ParseArguments_run.
      pose proof (ParseArguments_flags parsed (environ q)) as Hflags.
      destruct (ParseArguments registry parsed (environ q)) as [printed a'].
      intros [= <-]. simpl in Hflags. tauto.
    - apply same_environ_ParseArguments_run.
    - intros [parsed_args pytests_args] [Hdump Hskip]. simpl in *.
      rewrite <- Hdump, <- Hskip. destruct (dump_path parsed_args).
      + intros q. left. revert q. repeat same_environ_step.
      + apply (build_environ_after (fun _ => True)); [auto | reflexivity|].
        intros _ _.
        apply (build_environ_after (fun _ => True)); [auto | |].
        { destruct (skip_build parsed_args); simpl; [reflexivity|].
          repeat first [ apply same_environ_SetUpGenericLSPCompleter
                       | apply same_environ_SetUpJavaCompleter
                       | same_environ_step ]. }
        intros _ _.
        apply (build_environ_after (fun _ => True)); [auto | |].
        { destruct (no_flake8 parsed_args); simpl;
            [reflexivity | apply same_environ_RunFlake8]. }
        intros _ _. apply build_environ_before.
        * intros q. rewrite environ_BuildYcmdLibs_run.
          destruct (skip_build parsed_args); [left | right]; auto.
        * intros _. destruct (valgrind parsed_args);
            [apply same_environ_PytestValgrind
            | apply same_environ_PytestTests_run]. }
  split.
  - intros k Hk. destruct (Hcases p) as [->|(_ & ->)]; [reflexivity|].
    unfold add_dev_flags.
    destruct (environ p !! "EXTRA_CMAKE_ARGS"); apply lookup_insert_ne;
      congruence.
  - intros Hflag. destruct (Hcases p) as [->|([Hs Hd] & _)]; [reflexivity|].
    destruct Hflag; congruence.
Qed.

(** *** Two calls of PytestTests in one process *)

(** What one call appends to the list [BASE_PYTEST_ARGS] names. *)
Lemma pytests_args_of_appends (parsed_args : Namespace)
    (extra_pytests_args selected base : list string) :
  completers parsed_args = Some selected ->
  pytests_args_of DIR_OF_THIS_SCRIPT p_join registry parsed_args
    extra_pytests_args base =
  Return (base ++
          (excluded_test_flags registry selected ++
           (if coverage parsed_args
            then [ "--ignore=ycmd/tests/python/testdata"; "--cov=ycmd" ]
            else []) ++
           match extra_pytests_args with
           | [] => [ p_join DIR_OF_THIS_SCRIPT "ycmd" ]
           | _ => extra_pytests_args
           end)).
Proof.
  intros Hsel. unfold pytests_args_of. rewrite Hsel, extend_test_flags_eq.
  simpl. destruct (coverage parsed_args), extra_pytests_args; simpl;
    rewrite <- ?app_assoc; simpl; rewrite ?app_nil_r; reflexivity.
Qed.

Lemma PytestTests_run_eq (parsed_args : Namespace)
    (extra_pytests_args pytests_args : list string) (p : process OS) :
  pytests_args_of DIR_OF_THIS_SCRIPT p_join registry parsed_args
    extra_pytests_args (BASE_PYTEST_ARGS p) = Return pytests_args ->
  let after := PytestTests_run registry parsed_args extra_pytests_args p in
  BASE_PYTEST_ARGS after.1 = pytests_args /\
  environ after.1 = environ p /\
  match pytests_env DIR_OF_THIS_SCRIPT p_join on_windows parsed_args
          (environ p) with
  | Return env =>
      exists status,
        events after.1 =
        events p ++
        [ Spawn ([ sys_executable; "-m"; "pytest" ] ++ pytests_args) env
            status ]
  | Raise _ => events after.1 = events p
  end.
Proof.
  intros Hargs after. subst after.
  unfold PytestTests_run, mbind, M_bind, get_BASE_PYTEST_ARGS.
  rewrite Hargs. simpl.
  destruct (pytests_env DIR_OF_THIS_SCRIPT p_join on_windows parsed_args
              (environ p)) as [env|e]; simpl; [|auto].
  unfold check_call, mbind, M_bind, get_environ, call_os. simpl.
  destruct (spawn _ env (os p)) as [o [status|e]]; simpl.
  - destruct (Z.eqb status 0); simpl; eauto.
  - eauto.
Qed.

(** [PytestTests] extends the list [BASE_PYTEST_ARGS] names in place:
    however a first call ends, the list then holds what it held before
    followed by the arguments this call added, which are never none; a
    second call in the same process starts from that list and adds the
    same arguments again, and the test process it starts gets both
    runs. *)
Theorem PytestTests_run_accumulates (parsed_args : Namespace)
    (extra_pytests_args selected : list string) (p : process OS) :
  completers parsed_args = Some selected ->
  let first := PytestTests_run registry parsed_args extra_pytests_args p in
  let second :=
    PytestTests_run registry parsed_args extra_pytests_args first.1 in
  exists added,
    added <> [] /\
    BASE_PYTEST_ARGS first.1 = BASE_PYTEST_ARGS p ++ added /\
    BASE_PYTEST_ARGS second.1 = BASE_PYTEST_ARGS p ++ added ++ added /\
    match pytests_env DIR_OF_THIS_SCRIPT p_join on_windows parsed_args
            (environ p) with
    | Return env =>
        exists status1 status2,
          events second.1 =
          events p ++
          [ Spawn ([ sys_executable; "-m"; "pytest" ] ++
                   BASE_PYTEST_ARGS p ++ added) env status1;
            Spawn ([ sys_executable; "-m"; "pytest" ] ++
                   BASE_PYTEST_ARGS p ++ added ++ added) env status2 ]
    | Raise _ => events second.1 = events p
    end.
Proof.
  intros Hsel first second. subst second first.
  pose proof (pytests_args_of_appends parsed_args extra_pytests_args selected
                (BASE_PYTEST_ARGS p) Hsel) as Hargs1.
  destruct (PytestTests_run_eq _ _ _ p Hargs1) as (Hbase1 & Henv1 & Hev1).
  remember (PytestTests_run registry parsed_args extra_pytests_args p).1
    as p1 eqn:Hp1.
  pose proof (pytests_args_of_appends parsed_args extra_pytests_args selected
                (BASE_PYTEST_ARGS p1) Hsel) as Hargs2.
  destruct (PytestTests_run_eq _ _ _ p1 Hargs2) as (Hbase2 & _ & Hev2).
  rewrite Henv1 in Hev2. eexists. split; [|split; [exact Hbase1|split]].
  - destruct (coverage parsed_args), extra_pytests_args;
      destruct (excluded_test_flags registry selected); discriminate.
  - rewrite Hbase2, Hbase1, <- app_assoc. reflexivity.
  - destruct (pytests_env DIR_OF_THIS_SCRIPT p_join on_windows parsed_args
                (environ p)) as [env|e].
    + destruct Hev1 as [status1 Hev1]. destruct Hev2 as [status2 Hev2].
      exists status1, status2. rewrite Hev2, Hev1, Hbase1, <- !app_assoc.
      reflexivity.
    + rewrite Hev2. exact Hev1.
Qed.

(** *** PytestTests on Windows without PATH *)

(** On Windows, when [PATH] is not in [os.environ], [PytestTests] raises
    [KeyError] and starts no test process, but [BASE_PYTEST_ARGS] already
    has the test arguments of this call appended. *)
Theorem PytestTests_run_windows_no_PATH (parsed_args : Namespace)
    (extra_pytests_args selected : list string) (p : process OS) :
  on_windows = true ->
  environ p !! "PATH" = None ->
  completers parsed_args = Some selected ->
  exists pytests_args,
    pytests_args_of DIR_OF_THIS_SCRIPT p_join registry parsed_args
      extra_pytests_args (BASE_PYTEST_ARGS p) = Return pytests_args /\
    PytestTests_run registry parsed_args extra_pytests_args p =
    ({| os := os p; environ := environ p; BASE_PYTEST_ARGS := pytests_args;
        stdout := stdout p; events := events p |},
     Fail (Exception (KeyError "PATH"))).
Proof.
  intros Hwin HPATH Hsel.
  unfold PytestTests_run, mbind, M_bind, get_BASE_PYTEST_ARGS.
  unfold pytests_args_of at 2. rewrite Hsel, extend_test_flags_eq. simpl.
  eexists. split.
  - unfold pytests_args_of. rewrite Hsel, extend_test_flags_eq. reflexivity.
  - unfold pytests_env. rewrite Hwin.
    assert (Hnone : (if no_retry parsed_args
                     then <[ "YCM_TEST_NO_RETRY" := "1" ]> (environ p)
                     else environ p) !! "PATH" = None).
    { destruct (no_retry parsed_args); [|exact HPATH].
      rewrite lookup_insert_ne by discriminate. exact HPATH. }
    rewrite Hnone. reflexivity.
Qed.

End ProcessFacts.

(** *** On the sample machines *)

#[local] Existing Instance Machine.machine_system.

(** [FindExecutable_spec] where npm is in the second directory of [PATH]. *)
Lemma FindExecutable_spec_sample :
  exists found,
    FindExecutable (H:=Machine.posix) "npm"
      (Machine.start Machine.with_npm Machine.posix_environ) =
    (Machine.start Machine.with_npm Machine.posix_environ, Done found) /\
    found = Some "/bin/npm".
Proof.
  destruct (FindExecutable_spec (H:=Machine.posix) (H0:=Machine.machine_system)
              "npm" "/usr/bin:/bin"
              (Machine.start Machine.with_npm Machine.posix_environ) eq_refl)
    as (found & Heq & _).
  exists found. split; [exact Heq|].
  vm_compute in Heq. injection Heq as <-. reflexivity.
Defined.

(** [FindExecutable_posix] on the same machine. *)
Lemma FindExecutable_posix_sample :
  FindExecutable (H:=Machine.posix) "npm"
    (Machine.start Machine.with_npm Machine.posix_environ) =
  (Machine.start Machine.with_npm Machine.posix_environ,
   Done (Some "/bin/npm")).
Proof.
  rewrite (FindExecutable_posix (H:=Machine.posix) (H0:=Machine.machine_system)
             "npm" [ "/usr/bin"; "/bin" ]
             (Machine.start Machine.with_npm Machine.posix_environ)).
  - reflexivity.
  - reflexivity.
  - discriminate.
  - repeat constructor.
  - reflexivity.
Defined.

(** [FindExecutable_windows_exe_first] where [npm.cmd] is a file as it is
    and [npm.exe] is in a directory of [PATH]. *)
Lemma FindExecutable_windows_exe_first_sample :
  exists path,
    FindExecutable (H:=Machine.windows) "npm"
      (Machine.start Machine.with_npm_exe Machine.windows_environ) =
    (Machine.start Machine.with_npm_exe Machine.windows_environ,
     Done (Some path)) /\
    path = "C:/nodejs" +:+ Machine.backslash +:+ "npm.exe".
Proof.
  destruct (FindExecutable_windows_exe_first
              (H:=Machine.windows) (H0:=Machine.machine_system)
              "npm" "C:/Windows;C:/nodejs"
              (Machine.start Machine.with_npm_exe Machine.windows_environ))
    as (path & Heq & _).
  - reflexivity.
  - intros Hin. vm_compute in Hin.
    repeat (apply elem_of_cons in Hin; destruct Hin as [Hin|Hin];
            [discriminate|]).
    inversion Hin.
  - reflexivity.
  - intros [_ Hall]. specialize (Hall "C:/nodejs").
    assert (Hin : "C:/nodejs" ∈ split (pathsep (Platform:=Machine.windows))
                                  "C:/Windows;C:/nodejs")
      by (right; left).
    apply Hall in Hin. vm_compute in Hin. discriminate.
  - exists path. split; [exact Heq|].
    vm_compute in Heq. injection Heq as <-. reflexivity.
Defined.

(** [script_dump_path] with [--dump-path --skip-build] and no
    [PYTHONPATH] in the environment. *)
Lemma script_dump_path_sample :
  exists PYTHONPATH,
    (script (H:=Machine.posix) COMPLETERS (Machine.dump_path_args, [])
       (Machine.start Machine.with_npm Machine.posix_environ)).2 =
      Fail (SystemExit None) /\
    stdout (script (H:=Machine.posix) COMPLETERS (Machine.dump_path_args, [])
              (Machine.start Machine.with_npm Machine.posix_environ)).1 =
      [ PYTHONPATH ] /\
    events (script (H:=Machine.posix) COMPLETERS (Machine.dump_path_args, [])
              (Machine.start Machine.with_npm Machine.posix_environ)).1 = [].
Proof.
  destruct (script_dump_path (H:=Machine.posix) (H0:=Machine.machine_system)
              COMPLETERS (Machine.dump_path_args, [])
              (Machine.start Machine.with_npm Machine.posix_environ) eq_refl)
    as (PYTHONPATH & _ & Heq).
  exists PYTHONPATH. rewrite Heq. repeat split.
Defined.

(** [PYTHONPATH_entries] on the POSIX platform, with [/site] already in
    [PYTHONPATH]. *)
Lemma PYTHONPATH_entries_sample :
  exists value,
    set_PYTHONPATH (H:=Machine.posix) {[ "PYTHONPATH" := "/site" ]}
      !! "PYTHONPATH" = Some value /\
    split (Machine.char ":") value =
      python_path (H:=Machine.posix) ++
      [ "/site"; "/ycmd/third_party/jedi_deps/numpydoc" ].
Proof.
  destruct (PYTHONPATH_entries (H:=Machine.posix)
              {[ "PYTHONPATH" := "/site" ]})
    as (value & Hvalue & Hsplit & _).
  - unfold python_path. simpl. repeat constructor.
  - exists value. split; [exact Hvalue | exact Hsplit].
Defined.

(** [SetUpGenericLSPCompleter_without_npm] on the machine without npm. *)
Lemma SetUpGenericLSPCompleter_without_npm_sample :
  Machine.cwd
    (os (SetUpGenericLSPCompleter (H:=Machine.posix)
           (Machine.start Machine.without_npm Machine.posix_environ)).1) =
  "/ycmd/third_party/generic_server".
Proof.
  rewrite (SetUpGenericLSPCompleter_without_npm
             (H:=Machine.posix) (H0:=Machine.machine_system) "/usr/bin:/bin"
             (Machine.start Machine.without_npm Machine.posix_environ)
             (Machine.machine_chdir "/ycmd/third_party/generic_server"
                Machine.without_npm).1).
  - reflexivity.
  - reflexivity.
  - reflexivity.
  - intros ext Hext. vm_compute in Hext.
    apply list_elem_of_singleton in Hext. subst ext.
    split; [reflexivity|]. intros d Hd. vm_compute in Hd.
    repeat (apply elem_of_cons in Hd; destruct Hd as [->|Hd];
            [reflexivity|]).
    inversion Hd.
Defined.

(** [SetUpGenericLSPCompleter_done] on the machine with npm. *)
Lemma SetUpGenericLSPCompleter_done_sample :
  exists npm,
    events (SetUpGenericLSPCompleter (H:=Machine.posix)
              (Machine.start Machine.with_npm Machine.posix_environ)).1 =
    [ Chdir "/ycmd/third_party/generic_server";
      Spawn [ npm; "install" ] Machine.posix_environ (Return 0%Z);
      Spawn [ npm; "run"; "compile" ] Machine.posix_environ (Return 0%Z);
      Chdir "/ycmd" ].
Proof.
  destruct (SetUpGenericLSPCompleter_done
              (H:=Machine.posix) (H0:=Machine.machine_system)
              (Machine.start Machine.with_npm Machine.posix_environ)
              (SetUpGenericLSPCompleter (H:=Machine.posix)
                 (Machine.start Machine.with_npm Machine.posix_environ)).1)
    as (npm & Hevents & _).
  - vm_compute. reflexivity.
  - exists npm. exact Hevents.
Defined.

(** [failed_download_not_retried] on the machine whose download breaks. *)
Lemma failed_download_not_retried_sample :
  exists p',
    SetUpJavaCompleter (H:=Machine.posix)
      (Machine.start Machine.broken_download Machine.posix_environ) =
    (p', Fail (Exception (OtherError "IncompleteRead"))) /\
    SetUpJavaCompleter (H:=Machine.posix) p' = (p', Done tt).
Proof.
  destruct (failed_download_not_retried
              (H:=Machine.posix) (H0:=Machine.machine_system)
              (Machine.start Machine.broken_download Machine.posix_environ)
              Machine.broken_download
              (Machine.machine_open_wb
                 "/ycmd/third_party/lombok/cache/lombok-1.18.16.jar"
                 Machine.broken_download).1
              (Machine.machine_open_wb
                 "/ycmd/third_party/lombok/cache/lombok-1.18.16.jar"
                 Machine.broken_download).1
              (OtherError "IncompleteRead"))
    as (p' & Hfirst & _ & _ & Hsecond); try reflexivity.
  exists p'. split; [exact Hfirst | exact Hsecond].
Defined.

(** [PytestTests_run_accumulates] with [--completers go] on the POSIX
    machine: the second test process is given the scan root twice. *)
Lemma PytestTests_run_accumulates_sample :
  exists added,
    BASE_PYTEST_ARGS
      (PytestTests_run (H:=Machine.posix) COMPLETERS Samples.only_go []
         (PytestTests_run (H:=Machine.posix) COMPLETERS Samples.only_go []
            (Machine.start Machine.with_npm Machine.posix_environ)).1).1 =
      [ "-v"; "--color=yes" ] ++ added ++ added /\
    "/ycmd/ycmd" ∈ added.
Proof.
  destruct (PytestTests_run_accumulates
              (H:=Machine.posix) (H0:=Machine.machine_system) COMPLETERS
              Samples.only_go [] [ "go" ]
              (Machine.start Machine.with_npm Machine.posix_environ) eq_refl)
    as (added & _ & Hfirst & Hsecond & _).
  exists added. split; [exact Hsecond|].
  vm_compute in Hfirst. injection Hfirst as <-.
  rewrite !elem_of_cons. tauto.
Defined.

(** [PytestTests_run_windows_no_PATH] with [--completers go] and an
    empty environment. *)
Lemma PytestTests_run_windows_no_PATH_sample :
  exists pytests_args,
    BASE_PYTEST_ARGS
      (PytestTests_run (H:=Machine.windows) COMPLETERS Samples.only_go []
         (Machine.start Machine.with_npm_exe ∅)).1 = pytests_args /\
    (PytestTests_run (H:=Machine.windows) COMPLETERS Samples.only_go []
       (Machine.start Machine.with_npm_exe ∅)).2 =
      Fail (Exception (KeyError "PATH")) /\
    events (PytestTests_run (H:=Machine.windows) COMPLETERS Samples.only_go []
              (Machine.start Machine.with_npm_exe ∅)).1 = [] /\
    "--ignore=ycmd/tests/rust" ∈ pytests_args.
Proof.
  destruct (PytestTests_run_windows_no_PATH
              (H:=Machine.windows) (H0:=Machine.machine_system) COMPLETERS
              Samples.only_go [] [ "go" ]
              (Machine.start Machine.with_npm_exe ∅) eq_refl
              (lookup_empty (M:=gmap string) "PATH") eq_refl)
    as (pytests_args & Hargs & Hrun).
  exists pytests_args. rewrite Hrun. repeat split.
  vm_compute in Hargs. injection Hargs as <-.
  rewrite !elem_of_cons. tauto.
Defined.

End DriverFacts.

(** ** More on the registry and the selection *)

Module PlanFacts.

Import RunTestsFacts.

(** *** CompleterType on a registry whose entries all have aliases *)

Lemma foldl_insert_lookup (k : string) (als : list string)
    (acc : gmap string string) (a : string) :
  foldl (fun m i => <[ i := k ]> m) acc als !! a =
  if decide (a ∈ als) then Some k else acc !! a.
Proof.
  revert acc. induction als as [|i als IH]; intros acc.
  - simpl. destruct (decide (a ∈ [])) as [Hin|_];
      [inversion Hin | reflexivity].
  - cbn [foldl]. rewrite IH.
    destruct (decide (a ∈ als)) as [Hin|Hout];
      destruct (decide (a ∈ i :: als)) as [Hin'|Hout'].
    + reflexivity.
    + exfalso. apply Hout'. right. exact Hin.
    + apply elem_of_cons in Hin'. destruct Hin' as [->|Hin']; [|contradiction].
      apply lookup_insert_eq.
    + apply lookup_insert_ne. intros ->. apply Hout'. left.
Qed.

Lemma aliases_to_completer_from_lookup (items : dict completer_spec)
    (acc m : gmap string string) :
  aliases_to_completer_from items acc = Return m ->
  forall a,
    match m !! a with
    | Some k =>
        acc !! a = Some k \/
        exists spec als,
          (k, spec) ∈ items /\ aliases spec = Some als /\ a ∈ als
    | None =>
        acc !! a = None /\
        forall k spec als,
          (k, spec) ∈ items -> aliases spec = Some als -> a ∉ als
    end.
Proof.
  revert acc. induction items as [|[k v] rest IH]; intros acc.
  - intros [= <-] a. destruct (acc !! a); [left; reflexivity|].
    split; [reflexivity|]. intros k spec als Hin. inversion Hin.
  - simpl. unfold getitem_aliases.
    destruct (aliases v) as [als|] eqn:Hals; simpl; [|discriminate].
    intros Hrest a. specialize (IH _ Hrest a).
    rewrite foldl_insert_lookup in IH.
    destruct (m !! a) as [k'|].
    + destruct IH as [Hacc|(spec & als' & Hin & Hals' & Ha)].
      * destruct (decide (a ∈ als)) as [Hin|Hout].
        -- injection Hacc as <-. right. exists v, als.
           split; [left | auto].
        -- left. exact Hacc.
      * right. exists spec, als'. split; [right; exact Hin | auto].
    + destruct IH as [Hacc Hnone].
      destruct (decide (a ∈ als)) as [Hin|Hout]; [discriminate|].
      split; [exact Hacc|]. intros k' spec als' Hin Hals'.
      apply elem_of_cons in Hin. destruct Hin as [[= -> ->]|Hin].
      * congruence.
      * eapply Hnone; eassumption.
Qed.

Lemma aliases_to_completer_from_total (items : dict completer_spec)
    (acc : gmap string string) :
  Forall (fun kv => aliases kv.2 <> None) items ->
  exists m, aliases_to_completer_from items acc = Return m.
Proof.
  revert acc. induction items as [|[k v] rest IH]; intros acc Hall.
  - exists acc. reflexivity.
  - inversion Hall as [|? ? Hv Hrest]; subst. simpl in *.
    unfold getitem_aliases. destruct (aliases v); [|contradiction].
    simpl. apply IH. exact Hrest.
Qed.

(** For an ASCII input and a registry with ASCII names, where [lower]
    and [repr_dict_keys] are [str.lower] and [repr]: on a registry whose
    entries all have aliases, an input that is not a name is resolved to
    a completer that lists its lower-case form as an alias; an input that
    no completer lists is refused with the [ArgumentTypeError] that names
    its lower-case form, and with no other exception. *)
Theorem CompleterType_aliases (registry : dict completer_spec)
    (value : string) :
  is_ascii value = true ->
  Forall (fun n => is_ascii n = true) (keys registry) ->
  Forall (fun kv => aliases kv.2 <> None) registry ->
  mem (lower value) registry = false ->
  match CompleterType registry value with
  | Return k =>
      exists spec als,
        (k, spec) ∈ registry /\ aliases spec = Some als /\ lower value ∈ als
  | Raise e =>
      e = ArgumentTypeError
            (lower value +:+ " is not a valid completer - should be one of "
             +:+ repr_dict_keys (keys registry)) /\
      forall k spec als,
        (k, spec) ∈ registry -> aliases spec = Some als -> lower value ∉ als
  end.
Proof.
  intros _ _ Hall Hmem. unfold CompleterType, aliases_to_completer.
  rewrite Hmem.
  destruct (aliases_to_completer_from_total registry ∅ Hall) as [m Hm].
  rewrite Hm. simpl.
  pose proof (aliases_to_completer_from_lookup _ _ _ Hm (lower value)) as Hl.
  destruct (m !! lower value) as [k|].
  - destruct Hl as [Hempty|Hl]; [|exact Hl].
    rewrite lookup_empty in Hempty. discriminate.
  - split; [reflexivity | apply Hl].
Qed.

(** At the explicit literal, with [C++], which is an alias, and with
    [Fortran], which is none. *)
Lemma CompleterType_aliases_sample :
  (exists spec als,
     ("cfamily", spec) ∈ EXPLICIT_COMPLETERS /\
     aliases spec = Some als /\ lower "C++" ∈ als) /\
  CompleterType EXPLICIT_COMPLETERS "Fortran" =
    Raise (ArgumentTypeError
             ("fortran is not a valid completer - should be one of " +:+
              "dict_keys(['cfamily', 'cs', 'javascript', 'typescript', " +:+
              "'python', 'java'])")).
Proof.
  assert (Hascii : Forall (fun n => is_ascii n = true)
                     (keys EXPLICIT_COMPLETERS)).
  { unfold EXPLICIT_COMPLETERS. simpl. repeat constructor. }
  assert (Hall : Forall (fun kv : string * completer_spec =>
                           aliases kv.2 <> None) EXPLICIT_COMPLETERS).
  { unfold EXPLICIT_COMPLETERS. repeat constructor; discriminate. }
  split.
  - pose proof (CompleterType_aliases EXPLICIT_COMPLETERS "C++"
                  eq_refl Hascii Hall eq_refl) as H.
    change (CompleterType EXPLICIT_COMPLETERS "C++") with
      (Return (A:=string) "cfamily") in H.
    exact H.
  - pose proof (CompleterType_aliases EXPLICIT_COMPLETERS "Fortran"
                  eq_refl Hascii Hall eq_refl) as H.
    destruct (CompleterType EXPLICIT_COMPLETERS "Fortran") as [k|e] eqn:Hc.
    + vm_compute in Hc. discriminate.
    + destruct H as [-> _]. vm_compute. reflexivity.
Defined.

(** *** What a lookup returns *)

(** For an ASCII input, where [lower] is [str.lower]: on a registry whose
    names are ASCII and in lower case, whatever [CompleterType] returns
    is a name of the registry, and looking that name up returns it
    again. *)
Theorem CompleterType_returns_name (registry : dict completer_spec)
    (value k : string) :
  is_ascii value = true ->
  Forall (fun n => is_ascii n = true /\ lower n = n) (keys registry) ->
  CompleterType registry value = Return k ->
  k ∈ keys registry /\ is_ascii k = true /\
  CompleterType registry k = Return k.
Proof.
  intros _ Hlower. unfold CompleterType at 1.
  rewrite Forall_forall in Hlower.
  assert (Hkey : forall n, n ∈ keys registry ->
            n ∈ keys registry /\ is_ascii n = true /\
            CompleterType registry n = Return n).
  { intros n Hn. destruct (Hlower n Hn) as [Hascii Hfix].
    split; [exact Hn|]. split; [exact Hascii|].
    apply mem_keys in Hn. unfold CompleterType. rewrite Hfix, Hn.
    reflexivity. }
  destruct (mem (lower value) registry) eqn:Hmem.
  - intros [= <-]. apply Hkey. apply mem_keys. exact Hmem.
  - unfold aliases_to_completer.
    destruct (aliases_to_completer_from registry ∅) as [m|e] eqn:Hm; simpl;
      [|discriminate].
    pose proof (aliases_to_completer_from_lookup _ _ _ Hm (lower value)) as Hl.
    destruct (m !! lower value) as [k'|]; [|discriminate].
    intros [= ->].
    destruct Hl as [Hempty|(spec & als & Hin & _)];
      [rewrite lookup_empty in Hempty; discriminate|].
    apply Hkey. unfold keys. apply list_elem_of_fmap. exists (k, spec). auto.
Qed.

(** At the registry and [JAVA]. *)
Lemma CompleterType_returns_name_sample :
  "java" ∈ keys COMPLETERS /\ is_ascii "java" = true /\
  CompleterType COMPLETERS "java" = Return "java".
Proof.
  apply (CompleterType_returns_name COMPLETERS "JAVA" "java").
  - reflexivity.
  - unfold COMPLETERS. simpl. repeat constructor.
  - reflexivity.
Defined.

(** *** What ParseArguments hands on *)

(** After [ParseArguments] the selection is a list without repetition
    that holds the names [FixupCompleters] returned and no others, the
    remaining arguments are untouched, a [COVERAGE] variable has replaced
    the [--coverage] option, being on for the value [true] only, and
    neither [BuildYcmdLibs] nor the test arguments raise on the result. *)
Theorem ParseArguments_result (registry : dict completer_spec)
    (parsed : Namespace * list string) (e : environment) :
  let after := (ParseArguments registry parsed e).2 in
  exists selected,
    completers after.1 = Some selected /\
    NoDup selected /\
    (forall n, n ∈ selected <-> n ∈ (FixupCompleters registry parsed.1 e).2) /\
    after.2 = parsed.2 /\
    (forall v, e !! "COVERAGE" = Some v ->
       (coverage after.1 = true <-> v = "true")) /\
    (e !! "COVERAGE" = None -> coverage after.1 = coverage parsed.1) /\
    (forall sys_executable DIR_OF_THIS_SCRIPT p_join (e' : environment),
       ~ raises (BuildYcmdLibs sys_executable DIR_OF_THIS_SCRIPT p_join
                   registry after.1 e')) /\
    (forall DIR_OF_THIS_SCRIPT p_join (base : list string),
       ~ raises (pytests_args_of DIR_OF_THIS_SCRIPT p_join registry after.1
                   after.2 base)).
Proof.
  intros after. subst after.
  pose proof (DriverFacts.ParseArguments_flags registry parsed e)
    as (_ & _ & _ & _ & _ & _ & _ & Hsel & Hcov & Hextra).
  destruct (ParseArguments registry parsed e) as [printed [a extra]].
  simpl in *. eexists. split; [exact Hsel|].
  split; [apply NoDup_elements|]. split; [intros n; apply elem_of_elements|].
  split; [exact Hextra|]. split; [|split; [|split]].
  - intros v Hv. rewrite Hcov, Hv. apply String.eqb_eq.
  - intros Hv. rewrite Hcov, Hv. reflexivity.
  - intros exe dir join e'. destruct (skip_build a) eqn:Hskip.
    + rewrite (BuildYcmdLibs_skip _ _ _ _ _ _ Hskip). intros [].
    + rewrite (BuildYcmdLibs_eq _ _ _ _ _ _ _ Hskip Hsel). intros [].
  - intros dir join base. unfold pytests_args_of.
    rewrite Hsel, extend_test_flags_eq. simpl. intros [].
Qed.

(** On the namespace as parsed, with no selection option given, the
    build raises [TypeError]: the selection is still [None]. *)
Lemma BuildYcmdLibs_before_FixupCompleters (e : environment) :
  BuildYcmdLibs Samples.exe Samples.script_dir Samples.posix_join COMPLETERS
    default_args e =
  Raise (TypeError "argument of type 'NoneType' is not iterable").
Proof. reflexivity. Qed.

(** *** The build and the tests agree on the selection *)

Lemma elem_of_selected_build_flags (registry : dict completer_spec)
    (selected : list string) (f : string) :
  f ∈ selected_build_flags registry selected <->
  exists key spec, (key, spec) ∈ registry /\ key ∈ selected /\ f ∈ build spec.
Proof.
  unfold selected_build_flags. rewrite list_elem_of_In, in_flat_map. split.
  - intros ([key spec] & Hin & Hf). simpl in Hf.
    destruct (bool_decide (key ∈ selected)) eqn:Hsel; [|inversion Hf].
    exists key, spec. apply bool_decide_eq_true in Hsel.
    apply list_elem_of_In in Hin. apply list_elem_of_In in Hf. tauto.
  - intros (key & spec & Hin & Hsel & Hf). exists (key, spec). simpl.
    rewrite bool_decide_eq_true_2 by exact Hsel.
    apply list_elem_of_In in Hin. apply list_elem_of_In in Hf. tauto.
Qed.

(** No build flag of the registry belongs to two completers. *)
Lemma build_flags_owner (key key' : string) (spec spec' : completer_spec)
    (f : string) :
  (key, spec) ∈ COMPLETERS -> f ∈ build spec ->
  (key', spec') ∈ COMPLETERS -> f ∈ build spec' -> key' = key.
Proof.
  unfold COMPLETERS. rewrite !list_elem_of_In. simpl.
  intros H Hf H' Hf'.
  repeat (destruct H as [H|H]; [injection H as <- <-|]); [..|destruct H];
    simpl in Hf; rewrite ?elem_of_cons, ?elem_of_nil in Hf;
    repeat (destruct Hf as [Hf|Hf]); try contradiction; subst f;
    repeat (destruct H' as [H'|H']; [injection H' as <- <-|]);
    try destruct H';
    simpl in Hf'; rewrite ?elem_of_cons, ?elem_of_nil in Hf';
    repeat (destruct Hf' as [Hf'|Hf']);
    try contradiction; try discriminate; reflexivity.
Qed.

(** For every completer of the registry and every selection stored in
    the namespace: the command [BuildYcmdLibs] runs carries, between
    [--core-tests] and the global flags, a list that holds each build
    flag of the completer exactly when it is selected; the arguments
    [PytestTests] builds carry, after what [BASE_PYTEST_ARGS] held, a
    list that holds each test flag of the completer, which switches its
    tests off, exactly when it is not selected. *)
Theorem build_and_tests_agree (sys_executable DIR_OF_THIS_SCRIPT : string)
    (p_join : string -> string -> string) (args : Namespace)
    (selected extra_pytests_args base : list string) (e : environment)
    (key : string) (spec : completer_spec) :
  (key, spec) ∈ COMPLETERS ->
  completers args = Some selected ->
  skip_build args = false ->
  exists flags ignored,
    BuildYcmdLibs sys_executable DIR_OF_THIS_SCRIPT p_join COMPLETERS args e =
      Return
        (add_dev_flags e,
         Some {| argv :=
                   [ sys_executable; p_join DIR_OF_THIS_SCRIPT "build.py";
                     "--core-tests" ] ++
                   flags ++
                   (if Z.eqb (msvc args) 0 then []
                    else [ "--msvc"; str_of_int (msvc args) ]) ++
                   (if coverage args
                    then [ "--enable-coverage"; "--build-dir"; ".build" ]
                    else []) ++
                   (if quiet args then [ "--quiet" ] else []);
                 env := add_dev_flags e |}) /\
    pytests_args_of DIR_OF_THIS_SCRIPT p_join COMPLETERS args
      extra_pytests_args base =
      Return
        (base ++ ignored ++
         (if coverage args
          then [ "--ignore=ycmd/tests/python/testdata"; "--cov=ycmd" ]
          else []) ++
         match extra_pytests_args with
         | [] => [ p_join DIR_OF_THIS_SCRIPT "ycmd" ]
         | _ => extra_pytests_args
         end) /\
    (forall f, f ∈ build spec -> (f ∈ flags <-> key ∈ selected)) /\
    (forall g, g ∈ test spec -> (g ∈ ignored <-> key ∉ selected)).
Proof.
  intros Hin Hsel Hskip.
  exists (selected_build_flags COMPLETERS selected),
         (excluded_test_flags COMPLETERS selected).
  split; [apply BuildYcmdLibs_eq; assumption|]. split.
  - unfold pytests_args_of. rewrite Hsel, extend_test_flags_eq. simpl.
    destruct (coverage args), extra_pytests_args; simpl;
      rewrite <- ?app_assoc; simpl; rewrite ?app_nil_r; reflexivity.
  - split.
    + intros f Hf. rewrite elem_of_selected_build_flags. split.
      * intros (key' & spec' & Hin' & Hsel' & Hf').
        rewrite <- (build_flags_owner key key' spec spec' f); assumption.
      * intros Hsel'. exists key, spec. auto.
    + intros g Hg. rewrite elem_of_excluded_test_flags. split.
      * intros (key' & spec' & Hin' & Hsel' & Hg').
        rewrite <- (test_flags_owner key key' spec spec' g); assumption.
      * intros Hsel'. exists key, spec. auto.
Qed.

(** At the completer [rust], selected with [go], by [python3] at
    [/ycmd]: the build gets its flag and the tests do not get its
    [--ignore]. *)
Lemma build_and_tests_agree_sample :
  exists flags ignored,
    BuildYcmdLibs Samples.exe Samples.script_dir Samples.posix_join COMPLETERS
      (with_completers (Some [ "go"; "rust" ]) default_args) ∅ =
      Return
        (add_dev_flags ∅,
         Some {| argv := [ "python3"; "/ycmd/build.py"; "--core-tests" ] ++
                         flags ++ [ "--msvc"; "16" ];
                 env := add_dev_flags ∅ |}) /\
    pytests_args_of Samples.script_dir Samples.posix_join COMPLETERS
      (with_completers (Some [ "go"; "rust" ]) default_args) []
      BASE_PYTEST_ARGS_init =
      Return (BASE_PYTEST_ARGS_init ++ ignored ++ [ "/ycmd/ycmd" ]) /\
    "--rust-completer" ∈ flags /\ "--ignore=ycmd/tests/rust" ∉ ignored.
Proof.
  destruct (build_and_tests_agree Samples.exe Samples.script_dir
              Samples.posix_join
              (with_completers (Some [ "go"; "rust" ]) default_args)
              [ "go"; "rust" ] [] BASE_PYTEST_ARGS_init ∅
              "rust" (simple_spec "rust"))
    as (flags & ignored & Hbuild & Htests & Hflag & Hignore);
    [ unfold COMPLETERS; rewrite !elem_of_cons; vm_compute; tauto
    | reflexivity | reflexivity | ].
  exists flags, ignored. split; [exact Hbuild|]. split; [exact Htests|].
  split.
  - apply (Hflag "--rust-completer"); [left | right; left].
  - intros Hin. apply (Hignore "--ignore=ycmd/tests/rust") in Hin; [|left].
    apply Hin. right. left.
Defined.

(** *** The order of the registry *)

Lemma filter_ext_in {A : Type} (P Q : A -> Prop)
    `{!forall x, Decision (P x)} `{!forall x, Decision (Q x)} (l : list A) :
  (forall x, x ∈ l -> (P x <-> Q x)) -> filter P l = filter Q l.
Proof.
  induction l as [|x l IH]; intros Hext; [reflexivity|].
  rewrite !filter_cons, IH by (intros y Hy; apply Hext; right; exact Hy).
  destruct (decide (P x)) as [HP|HP], (decide (Q x)) as [HQ|HQ];
    try reflexivity; exfalso; apply (Hext x) in HP || apply (Hext x) in HQ;
    try left; contradiction.
Qed.

(** Adding simple completers that are all different keeps the explicit
    entries first and in their order, and puts after them, in the order
    they are listed, the simple names the literal does not have. *)
Theorem registry_order (simple : list string) (explicit : dict completer_spec) :
  NoDup simple ->
  keys (add_simple_completers simple explicit) =
  keys explicit ++ filter (fun n => n ∉ keys explicit) simple.
Proof.
  revert explicit. induction simple as [|c rest IH]; intros d Hnodup.
  - simpl. rewrite app_nil_r. reflexivity.
  - apply NoDup_cons in Hnodup. destruct Hnodup as [Hc Hrest].
    simpl. rewrite IH by exact Hrest. rewrite keys_set, filter_cons.
    destruct (mem c d) eqn:Hmem.
    + apply mem_keys in Hmem. rewrite decide_False by tauto.
      reflexivity.
    + apply mem_false_keys in Hmem. rewrite decide_True by exact Hmem.
      rewrite <- app_assoc. simpl. f_equal. f_equal.
      apply filter_ext_in. intros n Hn.
      rewrite elem_of_app, list_elem_of_singleton.
      split; [tauto|]. intros Hout [Hd| ->]; [tauto | contradiction].
Qed.

(** At the registry of the script. *)
Lemma registry_order_sample :
  keys (add_simple_completers SIMPLE_COMPLETERS EXPLICIT_COMPLETERS) =
  keys EXPLICIT_COMPLETERS ++ [ "clangd"; "rust"; "go" ].
Proof.
  rewrite (registry_order SIMPLE_COMPLETERS EXPLICIT_COMPLETERS).
  - reflexivity.
  - unfold SIMPLE_COMPLETERS. repeat constructor;
      rewrite ?elem_of_cons, ?elem_of_nil; intros H;
      repeat (destruct H as [H|H]); try discriminate; contradiction.
Defined.

(** *** An empty selection *)

(** When every name of the registry is excluded and no override is in
    the environment, the selection [ParseArguments] stores is empty; the
    command [BuildYcmdLibs] then runs has the global flags only, and the
    arguments [PytestTests] then builds have the test flags of every
    completer, in the order of the registry. *)
Theorem empty_selection (registry : dict completer_spec)
    (parsed : Namespace * list string) (excluded : list string)
    (e e' : environment) (sys_executable DIR_OF_THIS_SCRIPT : string)
    (p_join : string -> string -> string) (base : list string) :
  completers parsed.1 = None ->
  no_completers parsed.1 = Some excluded ->
  (forall n, n ∈ keys registry -> n ∈ excluded) ->
  e !! "USE_CLANG_COMPLETER" = None ->
  let after := (ParseArguments registry parsed e).2 in
  completers after.1 = Some [] /\
  (skip_build parsed.1 = false ->
   BuildYcmdLibs sys_executable DIR_OF_THIS_SCRIPT p_join registry after.1 e' =
     Return
       (add_dev_flags e',
        Some {| argv :=
                  [ sys_executable; p_join DIR_OF_THIS_SCRIPT "build.py";
                    "--core-tests" ] ++
                  (if Z.eqb (msvc after.1) 0 then []
                   else [ "--msvc"; str_of_int (msvc after.1) ]) ++
                  (if coverage after.1
                   then [ "--enable-coverage"; "--build-dir"; ".build" ]
                   else []) ++
                  (if quiet after.1 then [ "--quiet" ] else []);
                env := add_dev_flags e' |})) /\
  pytests_args_of DIR_OF_THIS_SCRIPT p_join registry after.1 after.2 base =
    Return
      (base ++ flat_map (fun kv => test kv.2) registry ++
       (if coverage after.1
        then [ "--ignore=ycmd/tests/python/testdata"; "--cov=ycmd" ]
        else []) ++
       match parsed.2 with
       | [] => [ p_join DIR_OF_THIS_SCRIPT "ycmd" ]
       | _ => parsed.2
       end).
Proof.
  intros Hinc Hexc Hall Henv after. subst after.
  pose proof (DriverFacts.ParseArguments_flags registry parsed e)
    as (_ & Hskip & _ & _ & _ & _ & _ & Hsel & _ & Hextra).
  assert (Hempty : (FixupCompleters registry parsed.1 e).2 = ∅).
  { rewrite FixupCompleters_snd, env_override_unset by exact Henv.
    unfold cli_completers. rewrite Hinc, Hexc. simpl.
    apply set_eq. intros n. rewrite elem_of_difference, !elem_of_list_to_set.
    split; [|intros Hn; apply not_elem_of_empty in Hn; contradiction].
    intros [Hn Hout]. exfalso. apply Hout. apply Hall. exact Hn. }
  rewrite Hempty, elements_empty in Hsel.
  assert (Hbuild : selected_build_flags registry [] = []).
  { clear. induction registry as [|[k v] rest IH]; [reflexivity|].
    change (selected_build_flags ((k, v) :: rest) [])
      with ((if bool_decide (k ∈ @nil string) then build v else []) ++
            selected_build_flags rest []).
    destruct (bool_decide_reflect (k ∈ @nil string)) as [Hk|_];
      [inversion Hk | exact IH]. }
  assert (Htest : excluded_test_flags registry [] =
                  flat_map (fun kv => test kv.2) registry).
  { clear. induction registry as [|[k v] rest IH]; [reflexivity|].
    change (excluded_test_flags ((k, v) :: rest) [])
      with ((if bool_decide (k ∈ @nil string) then [] else test v) ++
            excluded_test_flags rest []).
    destruct (bool_decide_reflect (k ∈ @nil string)) as [Hk|_];
      [inversion Hk|]. rewrite IH. reflexivity. }
  split; [exact Hsel|]. split.
  - intros Hbuilt. rewrite <- Hskip in Hbuilt.
    rewrite (BuildYcmdLibs_eq _ _ _ _ _ [] _ Hbuilt Hsel), Hbuild.
    reflexivity.
  - unfold pytests_args_of. rewrite Hsel, extend_test_flags_eq, Htest, Hextra.
    simpl.
    destruct (coverage (ParseArguments registry parsed e).2.1), parsed.2;
      simpl; rewrite <- ?app_assoc; simpl; rewrite ?app_nil_r; reflexivity.
Qed.

(** At [--no-completers] with every name of the registry, run by
    [python3] at [/ycmd] with an empty environment. *)
Lemma empty_selection_sample :
  BuildYcmdLibs Samples.exe Samples.script_dir Samples.posix_join COMPLETERS
    (ParseArguments COMPLETERS (Samples.without_all, []) ∅).2.1 ∅ =
    Return
      (add_dev_flags ∅,
       Some {| argv := [ "python3"; "/ycmd/build.py"; "--core-tests";
                         "--msvc"; "16" ];
               env := add_dev_flags ∅ |}) /\
  pytests_args_of Samples.script_dir Samples.posix_join COMPLETERS
    (ParseArguments COMPLETERS (Samples.without_all, []) ∅).2.1 []
    BASE_PYTEST_ARGS_init =
    Return
      (BASE_PYTEST_ARGS_init ++ flat_map (fun kv => test kv.2) COMPLETERS ++
       [ "/ycmd/ycmd" ]).
Proof.
  destruct (empty_selection COMPLETERS (Samples.without_all, [])
              (keys COMPLETERS) ∅ ∅ Samples.exe Samples.script_dir
              Samples.posix_join BASE_PYTEST_ARGS_init)
    as (_ & Hbuild & Htests); try reflexivity.
  { intros n Hn. exact Hn. }
  split; [apply Hbuild; reflexivity | exact Htests].
Defined.

End PlanFacts.

(** ** The server: Run after Shutdown *)

Module LifecycleFacts.

Import WsgiServer.

Section Lifecycle.
Variable waitress : Type.
Variable channel : Type.
Variable socket_map : waitress -> list (Z * channel).
Variable task_dispatcher_shutdown : waitress -> waitress * result unit.
Variable channel_close : channel -> waitress -> waitress * result unit.
Variable run : server waitress -> server waitress * result unit.

(** A server on which [Shutdown] has been called, however that call
    ended, and whose serve loop leaves [shutdown_requested] as it is set,
    never lets an [OSError] out of [Run]: the loop ending with one, of
    any class, makes [Run] return, and every other end of the loop is
    the end of [Run]. *)
Theorem Run_after_Shutdown (stdin_attached : bool) (self : server waitress) :
  (forall s, shutdown_requested s = true ->
     shutdown_requested (run s).1 = true) ->
  let stopping :=
    (Shutdown waitress channel socket_map task_dispatcher_shutdown
       channel_close self).1 in
  (Run waitress run stdin_attached stopping).2 =
    match (run stopping).2 with
    | Raise (OSError _) => Return tt
    | outcome => outcome
    end /\
  forall cls, (Run waitress run stdin_attached stopping).2 <> Raise (OSError cls).
Proof.
  intros Hkeeps stopping.
  assert (Hset : shutdown_requested stopping = true).
  { subst stopping. unfold Shutdown.
    destruct (task_dispatcher_shutdown _) as [w [[]|e]]; [|reflexivity].
    destruct (close_all waitress channel channel_close _ _). reflexivity. }
  specialize (Hkeeps stopping Hset). unfold Run.
  destruct (run stopping) as [self' [[]|e]]; simpl in *.
  - split; [reflexivity | discriminate].
  - destruct e; try (split; [reflexivity | discriminate]).
    rewrite Hkeeps. split; [reflexivity | discriminate].
Qed.

End Lifecycle.

(** At the sample server whose second channel cannot be closed, so that
    [Shutdown] raises, with a serve loop that an interrupt ends. *)
Lemma Run_after_Shutdown_sample :
  (Samples.toy_shutdown Samples.toy_server_stuck).2 =
    Raise (OSError "OSError") /\
  (Run Samples.toy_waitress Samples.run_interrupted true
     (Samples.toy_shutdown Samples.toy_server_stuck).1).2 = Return tt.
Proof.
  split; [vm_compute; reflexivity|].
  apply (Run_after_Shutdown Samples.toy_waitress nat (fun w => w)
           Samples.toy_dispatcher_shutdown Samples.toy_close
           Samples.run_interrupted true Samples.toy_server_stuck).
  intros s Hs. exact Hs.
Defined.

End LifecycleFacts.
